(** * Polar web client: diff-stat boxes, issue references and e-mail overrides

    A shallow embedding of

    - [clients/packages/polarkit/src/components/Issue/Reference.tsx]
      ([IssueReference], its three renderers and [DiffStat]), and
    - [clients/apps/web/src/components/Feed/Posts/EmailRender.tsx]
      (the e-mail override table [opts] and [EmailPoll]),

    together with the properties the specification states about them.

    JavaScript numbers are IEEE 754 binary64 values.  They are modelled by
    the executable specification of binary floating point arithmetic of the
    standard library ([SpecFloat], precision 53, exponent bound 1024), so
    that [a / total / threshold] rounds here exactly as it does in the
    browser.  React elements are modelled as a first-order tree, a component
    by the function from its props to the tree it renders. *)

From Stdlib Require Import ZArith Reals Lra Lia Bool String List.
From Stdlib Require Import Floats.SpecFloat Sorting.Sorted.
From stdpp Require Import gmap strings.
Import ListNotations.

Set Warnings "-register-all".

Local Open Scope string_scope.
Local Open Scope Z_scope.

(* ===================================================================== *)
(** * JavaScript numbers *)
(* ===================================================================== *)

Module Number.

Definition prec : Z := 53.
Definition emax : Z := 1024.

(** A JavaScript [number]. *)
Definition number : Type := spec_float.

(** Integer literals ([0], [1], [5]) and integers held in a number. *)
Definition of_Z (n : Z) : number := binary_normalize prec emax n 0 false.

Definition add : number -> number -> number := SFadd prec emax.
Definition sub : number -> number -> number := SFsub prec emax.
Definition div : number -> number -> number := SFdiv prec emax.

(** [x < y], [x <= y] and [x == y]; all three are false on NaN. *)
Definition ltb : number -> number -> bool := SFltb.
Definition leb : number -> number -> bool := SFleb.
Definition eqb : number -> number -> bool := SFeqb.

(** ToBoolean on a number: [0], [-0] and [NaN] are falsy. *)
Definition truthy (x : number) : bool :=
  match x with
  | S754_zero _ | S754_nan => false
  | _ => true
  end.

(** [Math.floor].  Numbers with a non-negative exponent are integers
    already; otherwise the mantissa is shifted right, which rounds
    towards minus infinity on [Z]. *)
Definition floor (x : number) : number :=
  match x with
  | S754_finite s m e =>
      if 0 <=? e then x
      else match Z.shiftr (cond_Zopp s (Z.pos m)) (- e) with
           | Z0 => S754_zero s
           | k => binary_normalize prec emax k 0 s
           end
  | _ => x
  end.

(** The length [Array(x)] accepts: an integer in [0, 2^32 - 1].  Any
    other number makes [Array(x)] raise a RangeError. *)
Definition array_length (x : number) : option nat :=
  match x with
  | S754_zero _ => Some 0%nat
  | S754_finite false m e =>
      if 0 <=? e then
        if e <? 32 then
          let n := Z.pos m * 2 ^ e in
          if n <? 2 ^ 32 then Some (Z.to_nat n) else None
        else None
      else
        if (Z.pos m mod 2 ^ (- e)) =? 0 then
          let n := Z.pos m / 2 ^ (- e) in
          if n <? 2 ^ 32 then Some (Z.to_nat n) else None
        else None
  | _ => None
  end.

(** [x || 0] for an optional numeric prop: [undefined], [0], [-0] and
    [NaN] all give the literal [0]. *)
Definition or_zero (x : option number) : number :=
  match x with
  | Some v => if truthy v then v else of_Z 0
  | None => of_Z 0
  end.

End Number.

Import Number.

(* ===================================================================== *)
(** * Strings *)
(* ===================================================================== *)

(** ToBoolean on an optional string: [undefined] and [''] are falsy. *)
Definition truthy_string (s : option string) : bool :=
  match s with
  | Some EmptyString | None => false
  | Some _ => true
  end.

(** [s || ''] for an optional string. *)
Definition or_empty (s : option string) : string :=
  match s with
  | Some v => v
  | None => EmptyString
  end.

Fixpoint drop_chars (n : nat) (s : string) : string :=
  match n, s with
  | O, _ => s
  | S n', String _ s' => drop_chars n' s'
  | S _, EmptyString => EmptyString
  end.

(** [s.replace(pat, rep)] with a string pattern: only the first
    occurrence of [pat] is replaced. *)
Fixpoint replace (pat rep s : string) : string :=
  if String.prefix pat s then rep ++ drop_chars (String.length pat) s
  else match s with
       | EmptyString => EmptyString
       | String c s' => String c (replace pat rep s')
       end.

(* ===================================================================== *)
(** * Rendered output and thrown errors *)
(* ===================================================================== *)

(** The type of a React element: a host tag (['div'], ['code']) or a
    component, named by its identifier. *)
Inductive ElemType : Type :=
| Tag (name : string)
| Comp (name : string).

(** What a component returns or receives as a child.  [NFalse] and
    [NUndefined] are the values of [cond && <X />] when [cond] is [false]
    or [undefined]; React renders neither.  [NUndefined] stands for
    [null] as well: the two behave alike wherever they occur here. *)
Inductive Node : Type :=
| NText (s : string)
| NNumber (x : number)
| NFalse
| NUndefined
| NElem (type : ElemType) (className : option string)
        (props : list (string * PropVal)) (children : list Node)
| NFragment (children : list Node)
| NArray (items : list Node)
with PropVal : Type :=
| PStr (s : string)
| PNum (x : number)
| PUndefined
| PRef (name : string)
| PDate (s : string)
| PChildren (c : list Node).

Inductive Error : Type :=
| TypeError
| RangeError.

Inductive Result (A : Type) : Type :=
| Ok (a : A)
| Throw (e : Error).

Arguments Ok {A} a.
Arguments Throw {A} e.

#[global] Instance Result_ret : MRet Result := fun A a => Ok a.
#[global] Instance Result_bind : MBind Result :=
  fun A B f m => match m with Ok a => f a | Throw e => Throw e end.

(** An object literal with spread: a key that is already present keeps its
    place and takes the new value, a new key goes last. *)
Fixpoint obj_set (k : string) (v : PropVal) (o : list (string * PropVal))
  : list (string * PropVal) :=
  match o with
  | [] => [(k, v)]
  | (k', v') :: o' =>
      if String.eqb k k' then (k', v) :: o' else (k', v') :: obj_set k v o'
  end.

Definition obj_assign (target source : list (string * PropVal))
  : list (string * PropVal) :=
  fold_left (fun o kv => obj_set (fst kv) (snd kv) o) source target.

(** The children an element gets from a [children] prop. *)
Definition child_list (c : Node) : list Node :=
  match c with
  | NUndefined => []
  | NArray cs => cs
  | _ => [c]
  end.

Definition is_anchor (t : ElemType) : bool :=
  match t with
  | Tag name => String.eqb name "a"
  | Comp _ => false
  end.

(** The links of a rendered tree, in document order. *)
Fixpoint anchors (n : Node) : list Node :=
  match n with
  | NElem t _ _ cs => if is_anchor t then [n] else flat_map anchors cs
  | NFragment cs | NArray cs => flat_map anchors cs
  | _ => []
  end.

(* ===================================================================== *)
(** * Issue/Reference.tsx *)
(* ===================================================================== *)

Record DiffAllocation : Type := {
  additionBoxes : number;
  deletionBoxes : number;
  emptyBoxes : number
}.

Definition boxCount : number := of_Z 5.
Definition threshold : number := div (of_Z 1) boxCount.

(** The box counts computed at the head of [DiffStat]: five boxes, one
    claimed per full 20% of the total, additions first, then deletions,
    the rest empty. *)
Definition diffAllocate (additions deletions : option number) : DiffAllocation :=
  let additions := or_zero additions in
  let deletions := or_zero deletions in
  let total := add additions deletions in
  if ltb (of_Z 0) total then
    let additionBoxes := floor (div (div additions total) threshold) in
    let deletionBoxes := floor (div (div deletions total) threshold) in
    {| additionBoxes := additionBoxes;
       deletionBoxes := deletionBoxes;
       emptyBoxes := sub (sub boxCount additionBoxes) deletionBoxes |}
  else
    {| additionBoxes := of_Z 0;
       deletionBoxes := of_Z 0;
       emptyBoxes := boxCount |}.

Module PullRequestReference.
Record t : Type := {
  title : string;
  author_avatar : string;
  number : Number.number;
  additions : option Number.number;
  deletions : option Number.number;
  state : string;
  created_at : string;
  merged_at : option string;
  closed_at : option string
}.
End PullRequestReference.

Module ExternalGitHubPullRequestReference.
Record t : Type := {
  organization_name : string;
  repository_name : string;
  number : Number.number;
  title : string;
  state : string;
  author_avatar : string
}.
End ExternalGitHubPullRequestReference.

Module ExternalGitHubCommitReference.
Record t : Type := {
  organization_name : string;
  repository_name : string;
  sha : string;
  branch_name : option string;
  author_avatar : string
}.
End ExternalGitHubCommitReference.

Record PullRequestFormatting : Type := {
  label : string;
  timestamp : string;
  titleClasses : string;
  iconClasses : string
}.

Definition icon (name : string) : Node := NElem (Comp name) None [] [].

(** [cond && node] for a boolean [cond]. *)
Definition when (cond : bool) (n : Node) : Node := if cond then n else NFalse.

Definition Box (children : list Node) : Node :=
  NFragment
    [NElem (Tag "div") (Some "flex justify-between text-sm") []
       [NElem (Tag "div")
          (Some "flex w-full items-center justify-between gap-2") []
          children]].

Definition Avatar (src : string) : Node :=
  NElem (Tag "img")
    (Some "h-8 w-8 rounded-full border-2 border-white bg-gray-200")
    [("src", PStr src)] [].

Definition LeftSide (children : list Node) : Node :=
  NElem (Tag "div") (Some "flex flex-wrap items-center gap-2") [] children.

Definition RightSide (children : list Node) : Node :=
  NElem (Tag "div")
    (Some "flex flex-shrink-0 items-center justify-between gap-4") []
    children.

Definition number_child (x : option number) : Node :=
  match x with
  | Some v => NNumber v
  | None => NUndefined
  end.

(** [IssueReferenceExternalGitHubCommit]: the two URLs, the fork test and
    the two links it chooses between. *)
Definition baseHref (commit : ExternalGitHubCommitReference.t) : string :=
  "https://github.com/" ++ ExternalGitHubCommitReference.organization_name commit
    ++ "/" ++ ExternalGitHubCommitReference.repository_name commit.

Definition commitHref (commit : ExternalGitHubCommitReference.t) : string :=
  baseHref commit ++ "/commit/" ++ ExternalGitHubCommitReference.sha commit.

Definition isFork (orgName : string) (commit : ExternalGitHubCommitReference.t) : bool :=
  negb (String.eqb orgName (ExternalGitHubCommitReference.organization_name commit)).

(** The link shown for a commit that carries a branch name. *)
Definition branchLink (orgName : string) (commit : ExternalGitHubCommitReference.t)
    (branch : string) : Node :=
  NElem (Tag "a") (Some "font-mono")
    [("href", PStr (baseHref commit ++ "/tree/" ++ branch))]
    [when (isFork orgName commit)
       (NFragment
          [NText (ExternalGitHubCommitReference.organization_name commit);
           NText "/";
           NText (ExternalGitHubCommitReference.repository_name commit);
           NText "/"]);
     NText branch].

(** The link shown for a commit without one. *)
Definition shaLink (commit : ExternalGitHubCommitReference.t) : Node :=
  NElem (Tag "a") (Some "font-mono text-gray-500")
    [("href", PStr (commitHref commit))]
    [NText (String.substring 0 6 (ExternalGitHubCommitReference.sha commit))].

(** [commit.branch_name && <a>...</a>] evaluates to [undefined] or to the
    empty string when the branch name is one of them. *)
Definition IssueReferenceExternalGitHubCommit
    (orgName : string) (commit : option ExternalGitHubCommitReference.t) : Node :=
  match commit with
  | None => NFragment []
  | Some commit =>
      NFragment
        [LeftSide
           [icon "GitBranchIcon";
            NElem (Tag "span") (Some "inline-flex space-x-2") []
              [match ExternalGitHubCommitReference.branch_name commit with
               | None => NUndefined
               | Some EmptyString => NText EmptyString
               | Some branch => branchLink orgName commit branch
               end;
               when (negb (truthy_string
                             (ExternalGitHubCommitReference.branch_name commit)))
                 (shaLink commit)]];
         RightSide [Avatar (ExternalGitHubCommitReference.author_avatar commit)]]
  end.


Section Reference.

(** [polarkit/utils] and the generated API client are not part of the
    sources at hand: their two helpers and the three values of the enum
    [IssueReferenceType] are parameters. *)
Variable githubPullReqeustUrl : string -> string -> number -> string.
Variable classNames : list string -> string.
Variables PULL_REQUEST EXTERNAL_GITHUB_COMMIT EXTERNAL_GITHUB_PULL_REQUEST : string.

(** The payload of a reference is one object; each [as] cast of
    [IssueReference] is a typed view of it ([None]: no payload). *)
Variable Payload : Type.
Variable asPullRequestReference : Payload -> option PullRequestReference.t.
Variable asExternalGitHubCommitReference :
  Payload -> option ExternalGitHubCommitReference.t.
Variable asExternalGitHubPullRequestReference :
  Payload -> option ExternalGitHubPullRequestReference.t.

Record IssueReferenceRead : Type := {
  reference_id : string;
  type : string;
  payload : Payload
}.

Definition diffBox (className : string) (i : nat) : Node :=
  NElem (Tag "span")
    (Some (classNames [className; "ml-0.5 inline-block h-2.5 w-2.5 border"]))
    [("key", PNum (of_Z (Z.of_nat i)))]
    [NText " "].

Definition generateDiffBox (className : string) (boxes : number) : Result Node :=
  if leb boxes (of_Z 0) then Ok (NFragment [])
  else match array_length boxes with
       | None => Throw RangeError
       | Some n => Ok (NArray (map (diffBox className) (seq 0 n)))
       end.

Definition DiffStat (additions deletions : option number) : Result Node :=
  let boxes := diffAllocate additions deletions in
  green ← generateDiffBox "divide-green-300 bg-green-200" (additionBoxes boxes);
  red ← generateDiffBox "divide-red-300 bg-red-200" (deletionBoxes boxes);
  gray ← generateDiffBox "divide-gray-300 bg-gray-200" (emptyBoxes boxes);
  Ok (NElem (Tag "div")
        (Some "hidden flex-shrink-0 flex-nowrap items-center gap-2 lg:flex") []
        [NElem (Tag "span") (Some "text-green-400") []
           [NText "+"; number_child additions];
         NElem (Tag "span") (Some "text-red-400") []
           [NText "-"; number_child deletions];
         NElem (Tag "span") None [] [green; red; gray]]).

Definition IssueReferenceExternalGitHubPullRequest
    (pr : option ExternalGitHubPullRequestReference.t) : Node :=
  match pr with
  | None => NFragment []
  | Some pr =>
      let isMerged :=
        String.eqb (ExternalGitHubPullRequestReference.state pr) "closed" in
      let href :=
        githubPullReqeustUrl
          (ExternalGitHubPullRequestReference.organization_name pr)
          (ExternalGitHubPullRequestReference.repository_name pr)
          (ExternalGitHubPullRequestReference.number pr) in
      NFragment
        [LeftSide
           [when isMerged (icon "GitMergeIcon");
            when (negb isMerged) (icon "GitPullRequestIcon");
            NElem (Tag "a") (Some "font-medium") [("href", PStr href)]
              [NText (ExternalGitHubPullRequestReference.title pr)];
            NElem (Tag "a") None [("href", PStr href)]
              [NText (ExternalGitHubPullRequestReference.organization_name pr);
               NText "/";
               NText (ExternalGitHubPullRequestReference.repository_name pr);
               NText "#";
               NNumber (ExternalGitHubPullRequestReference.number pr)]];
         RightSide [Avatar (ExternalGitHubPullRequestReference.author_avatar pr)]]
  end.

Definition IssueReferencePullRequest
    (pr : option PullRequestReference.t) (orgName repoName : string)
  : Result Node :=
  match pr with
  | None => Ok (NFragment [])
  | Some pr =>
      let closed := String.eqb (PullRequestReference.state pr) "closed" in
      let isMerged := closed && truthy_string (PullRequestReference.merged_at pr) in
      let isClosed := negb isMerged && closed in
      let isOpen := negb isMerged && negb isClosed in
      let formatting :=
        if isMerged then
          {| label := "merged";
             timestamp := or_empty (PullRequestReference.merged_at pr);
             titleClasses := EmptyString;
             iconClasses := "bg-purple-100 border-purple-200" |}
        else if isClosed then
          {| label := "closed";
             timestamp := or_empty (PullRequestReference.closed_at pr);
             titleClasses := EmptyString;
             iconClasses := "bg-red-100 border-red-200" |}
        else
          {| label := "opened";
             timestamp := PullRequestReference.created_at pr;
             titleClasses := EmptyString;
             iconClasses := "bg-green-100 border-green-200" |} in
      let href :=
        githubPullReqeustUrl orgName repoName (PullRequestReference.number pr) in
      diff ← DiffStat (PullRequestReference.additions pr)
                      (PullRequestReference.deletions pr);
      Ok (NFragment
            [LeftSide
               [NElem (Tag "span")
                  (Some (classNames [iconClasses formatting; "rounded-lg border p-1"]))
                  []
                  [when isMerged (icon "GitMergeIcon");
                   when isClosed (icon "GitPullRequestClosedIcon");
                   when isOpen (icon "GitPullRequestIcon")];
                NElem (Tag "a")
                  (Some (classNames [titleClasses formatting; "font-medium"]))
                  [("href", PStr href)]
                  [NText (PullRequestReference.title pr)];
                NElem (Tag "span")
                  (Some "overflow-hidden whitespace-pre text-sm text-gray-500") []
                  [NText "#"; NNumber (PullRequestReference.number pr); NText " ";
                   NText (label formatting); NText " ";
                   if String.eqb (timestamp formatting) EmptyString then NText EmptyString
                   else NElem (Comp "TimeAgo") None
                          [("date", PDate (timestamp formatting))] []]];
             RightSide [diff; Avatar (PullRequestReference.author_avatar pr)]])
  end.

Definition IssueReference
    (orgName repoName : string) (reference : option IssueReferenceRead)
  : Result Node :=
  match reference with
  | None => Ok (NFragment [])
  | Some reference =>
      if String.eqb (type reference) PULL_REQUEST then
        inner ← IssueReferencePullRequest
                  (asPullRequestReference (payload reference)) orgName repoName;
        Ok (Box [inner])
      else if String.eqb (type reference) EXTERNAL_GITHUB_COMMIT then
        Ok (Box [IssueReferenceExternalGitHubCommit orgName
                   (asExternalGitHubCommitReference (payload reference))])
      else if String.eqb (type reference) EXTERNAL_GITHUB_PULL_REQUEST then
        Ok (Box [IssueReferenceExternalGitHubPullRequest
                   (asExternalGitHubPullRequestReference (payload reference))])
      else Ok (NFragment [])
  end.

End Reference.

Arguments reference_id {Payload} _.
Arguments type {Payload} _.
Arguments payload {Payload} _.

(* ===================================================================== *)
(** * Feed/Posts/EmailRender.tsx *)
(* ===================================================================== *)

(** The props object an override receives from the markdown compiler. *)
Record Args : Type := {
  args_className : option string;
  args_props : list (string * PropVal);
  args_children : Node
}.

Definition Override : Type := Args -> Result Node.

(** [<C {...args} k={v} />] *)
Definition spread_into (component : string) (args : Args)
    (extra : list (string * PropVal)) : Node :=
  NElem (Comp component) (args_className args)
    (obj_assign (args_props args) extra)
    (child_list (args_children args)).

Definition string_prop (s : option string) : PropVal :=
  match s with
  | Some v => PStr v
  | None => PUndefined
  end.

Definition is_code (t : ElemType) : bool :=
  match t with
  | Tag name => String.eqb name "code"
  | Comp _ => false
  end.

(** [className?.replace('lang-', '')] *)
Definition language_of (className : option string) : option string :=
  option_map (replace "lang-" EmptyString) className.

Definition is_mermaid (language : option string) : bool :=
  match language with
  | Some l => String.eqb l "mermaid"
  | None => false
  end.


Definition EmailMermaid (graphDefinition : list Node) : Node :=
  NElem (Comp "EmailMermaid") None
    [("graphDefinition", PChildren graphDefinition)] [].

(** [<EmailSyntaxHighlighter language={language} {...props} />], [props]
    being the props of the [code] child, its children included. *)
Definition EmailSyntaxHighlighter (language : option string)
    (className : option string) (props : list (string * PropVal))
    (children : list Node) : Node :=
  NElem (Comp "EmailSyntaxHighlighter") className
    (obj_assign [("language", string_prop language)] props)
    children.

Definition poll : Override :=
  fun args => Ok (spread_into "Poll" args [("renderer", PRef "EmailPoll")]).

Definition paywall : Override := fun args => Ok (spread_into "Paywall" args []).

Definition SubscribeNow : Override := fun _ => Ok (NFragment []).

Definition embed : Override := fun args => Ok (spread_into "Embed" args []).

Definition iframe : Override := fun args => Ok (spread_into "Iframe" args []).

(** Reading [.type] of [undefined] raises a TypeError; every other child
    has a [type] property (possibly [undefined]) to compare with ['code'].
    The child's class name is a string or absent, as the markdown
    compiler produces it. *)
Definition pre : Override :=
  fun args =>
    match args_children args with
    | NUndefined => Throw TypeError
    | NElem t className props children =>
        if is_code t then
          let language := language_of className in
          if is_mermaid language then Ok (EmailMermaid children)
          else Ok (EmailSyntaxHighlighter language className props children)
        else Ok (NFragment [])
    | _ => Ok (NFragment [])
    end.

Section Opts.

(** [markdownOpts] comes from [./markdown], which is not part of the
    sources at hand: its override table is a parameter. *)
Variable markdownOpts_overrides : gmap string Override.

(** [opts.overrides]: the base table with the e-mail overrides written
    over it. *)
Definition opts_overrides : gmap string Override :=
  <["pre" := pre]>
    (<["iframe" := iframe]>
       (<["embed" := embed]>
          (<["SubscribeNow" := SubscribeNow]>
             (<["paywall" := paywall]>
                (<["poll" := poll]> markdownOpts_overrides))))).

End Opts.

Definition EmailPoll (options : list string) : Node :=
  NElem (Comp "Container") (Some "my-2 bg-green-300 p-8") []
    [NElem (Tag "table") (Some "w-full") []
       [NArray
          (map (fun s =>
                  NElem (Tag "tr") None [("key", PStr s)]
                    [NElem (Tag "td") None [] [NText s];
                     NElem (Tag "td") (Some "text-right") []
                       [NText "123 votes (10%)"]])
               options)]].

(* ===================================================================== *)
(** * The paywall cut-off of the markdown render pass *)
(* ===================================================================== *)

Module Paywall.

(** Modelled from the spec: [wrapStrictCreateElement] and the
    [RenderArticle] type live in [./markdown], which is not part of the
    sources at hand; [EmailRender] only calls them.  The model follows
    sections 4.1 and 9 of the specification: a pre-pass finds the
    position of the paywall marker in the article body, and the
    construction pass substitutes one placeholder for the nodes beyond
    that position. *)
Record RenderArticle : Type := {
  body : string;
  byline : string;
  organization : string;
  published_at : option string
}.

(** Modelled from the spec: a node of the parsed document together with
    its position in the source text. *)
Record SourceNode : Type := {
  position : nat;
  node : Node
}.

(** Modelled from the spec: what the pass emits for a node, the node as
    rendered or the paywall prompt. *)
Inductive Output : Type :=
| Rendered (n : Node)
| PaywallPrompt.

Section Render.

(** The text of the marker and the markdown parser are external. *)
Variable marker : string.
Variable parse : string -> list SourceNode.

(** Modelled from the spec: the pre-pass.  The cut-off is the position
    of the marker in the body; there is none when the marker is absent
    or [showPaywalledContent] is set. *)
Definition cutoff (article : RenderArticle) (showPaywalledContent : bool)
  : option nat :=
  if showPaywalledContent then None
  else String.index 0 marker (body article).

(** Modelled from the spec: the construction pass.  [emitted] records
    that the placeholder has been produced already. *)
Fixpoint construct (cut : nat) (emitted : bool) (nodes : list SourceNode)
  : list Output :=
  match nodes with
  | [] => []
  | n :: rest =>
      if (cut <? position n)%nat then
        if emitted then construct cut true rest
        else PaywallPrompt :: construct cut true rest
      else Rendered (node n) :: construct cut emitted rest
  end.

(** Modelled from the spec: one render of an article. *)
Definition render (article : RenderArticle) (showPaywalledContent : bool)
  : list Output :=
  let nodes := parse (body article) in
  match cutoff article showPaywalledContent with
  | None => map (fun n => Rendered (node n)) nodes
  | Some cut => construct cut false nodes
  end.

(** [EmailRender] passes the article only, so [showPaywalledContent]
    takes its default. *)
Definition EmailRender (article : RenderArticle) : list Output :=
  render article false.

End Render.

Definition is_prompt (o : Output) : bool :=
  match o with
  | PaywallPrompt => true
  | Rendered _ => false
  end.

(** The nodes an output list shows, prompts left out. *)
Fixpoint rendered_nodes (out : list Output) : list Node :=
  match out with
  | [] => []
  | Rendered n :: rest => n :: rendered_nodes rest
  | PaywallPrompt :: rest => rendered_nodes rest
  end.

Definition prompts (out : list Output) : nat :=
  List.length (List.filter is_prompt out).

Definition after (cut : nat) (n : SourceNode) : bool := (cut <? position n)%nat.

(** What the pass emits for a node it lets through. *)
Definition shown (n : SourceNode) : Output := Rendered (node n).

(** The nodes come in the order of their positions in the source. *)
Definition in_source_order (nodes : list SourceNode) : Prop :=
  StronglySorted (fun a b => (position a <= position b)%nat) nodes.

End Paywall.

(* ===================================================================== *)
(** * Real values of binary64 numbers *)
(* ===================================================================== *)

Abbreviation fexp := (SpecFloat.fexp prec emax).

Definition bpow (e : Z) : R := powerRZ 2 e.

Definition F2R (m e : Z) : R := (IZR m * bpow e)%R.

(** The real number a finite number stands for (zero for the others). *)
Definition B2R (x : number) : R :=
  match x with
  | S754_finite s m e => F2R (cond_Zopp s (Z.pos m)) e
  | _ => 0%R
  end.

(** Relative and absolute rounding error. *)
Definition eps : R := bpow (-52).
Definition eta : R := bpow (-1074).

(** The last step of every rounded operation: zero, finite or overflow. *)
Definition pack (s : bool) (m e : Z) : number :=
  match m with
  | Z0 => S754_zero s
  | Zpos p => if e <=? emax - prec then S754_finite s p e else S754_infinity s
  | Zneg _ => S754_nan
  end.

(** Mantissa and exponent after rounding: at most 53 bits, and 53 bits
    exactly above the subnormal range. *)
Definition rounded (m e : Z) : Prop :=
  0 <= m < 2 ^ 53 /\ -1074 <= e /\ (2 ^ 52 <= m \/ e = -1074).

(** [+0] or a positive finite number. *)
Definition pos_or_zero (x : number) : Prop :=
  x = S754_zero false \/ exists m e, x = S754_finite false m e.

Definition nonneg (x : number) : Prop :=
  x = S754_zero false \/ exists m e, x = S754_finite false m e /\ -1074 <= e.

(** A count: a well-formed number that is finite and not negative.  Every
    non-negative integer a number can hold is one. *)
Definition nonneg_number (x : number) : Prop :=
  match x with
  | S754_zero _ => True
  | S754_finite false m e => valid_binary prec emax x = true
  | _ => False
  end.

Definition nonneg_input (x : option number) : Prop :=
  match x with
  | None => True
  | Some v => nonneg_number v
  end.

(** An input that counts as zero: absent, or a zero. *)
Definition zero_input (x : option number) : Prop :=
  match x with
  | None => True
  | Some (S754_zero _) => True
  | Some _ => False
  end.

(* ===================================================================== *)
(** * Observations on rendered trees *)
(* ===================================================================== *)

(** [o[k]] on an object literal. *)
Fixpoint obj_get (k : string) (o : list (string * PropVal)) : option PropVal :=
  match o with
  | [] => None
  | (k', v) :: o' => if String.eqb k k' then Some v else obj_get k o'
  end.

Definition props_of (n : Node) : list (string * PropVal) :=
  match n with
  | NElem _ _ props _ => props
  | _ => []
  end.

(** The target of a link. *)
Definition href_of (n : Node) : option PropVal := obj_get "href" (props_of n).

(** The text of the string children of an element, in order. *)
Definition texts_of (n : Node) : list string :=
  match n with
  | NElem _ _ _ cs =>
      flat_map (fun c => match c with NText s => [s] | _ => [] end) cs
  | _ => []
  end.

(** The components a tree mounts, in document order. *)
Fixpoint component_names (n : Node) : list string :=
  match n with
  | NElem (Comp name) _ _ cs => name :: flat_map component_names cs
  | NElem (Tag _) _ _ cs => flat_map component_names cs
  | NFragment cs | NArray cs => flat_map component_names cs
  | _ => []
  end.

(** The [date] props of a tree, in document order. *)
Fixpoint dates_of (n : Node) : list string :=
  match n with
  | NElem _ _ props cs =>
      match obj_get "date" props with
      | Some (PDate d) => d :: flat_map dates_of cs
      | _ => flat_map dates_of cs
      end
  | NFragment cs | NArray cs => flat_map dates_of cs
  | _ => []
  end.

(** What [generateDiffBox] draws for a count of [n] boxes. *)
Definition diffBoxes (classNames : list string -> string) (className : string)
    (n : nat) : Node :=
  match n with
  | O => NFragment []
  | S _ => NArray (map (diffBox classNames className) (seq 0 n))
  end.

(** The tags [opts] writes over the base table. *)
Definition email_tags : list string :=
  ["poll"; "paywall"; "SubscribeNow"; "embed"; "iframe"; "pre"].

(** The time stamp [IssueReferencePullRequest] keeps in [formatting]:
    [merged_at] for a merged pull request, [closed_at || ''] for a closed
    one, [created_at] otherwise. *)
Definition formatting_timestamp (pr : PullRequestReference.t) : string :=
  if String.eqb (PullRequestReference.state pr) "closed" then
    if truthy_string (PullRequestReference.merged_at pr)
    then or_empty (PullRequestReference.merged_at pr)
    else or_empty (PullRequestReference.closed_at pr)
  else PullRequestReference.created_at pr.

(* ===================================================================== *)
(** * The article queries of Issue/Reference.tsx *)
(* ===================================================================== *)

(** An entry of a query key: a string, a boolean, or [undefined] when an
    optional variable is missing. *)
Inductive KeyPart : Type :=
| KStr (s : string)
| KBool (b : bool)
| KUndefined.

#[global] Instance KeyPart_eq_dec : EqDecision KeyPart.
Proof. solve_decision. Defined.

Definition key_string (s : option string) : KeyPart :=
  match s with
  | Some v => KStr v
  | None => KUndefined
  end.

Definition key_bool (b : option bool) : KeyPart :=
  match b with
  | Some v => KBool v
  | None => KUndefined
  end.

(** The part of a [useQuery] call that decides when it runs and when it
    is refetched. *)
Record Query : Type := {
  queryKey : list KeyPart;
  enabled : bool
}.

Definition useOrganizationArticles
    (orgName : option string) (showUnpublished : option bool) : Query :=
  {| queryKey := [KStr "article"; KStr "organization";
                  key_string orgName; key_bool showUnpublished];
     enabled := truthy_string orgName |}.

Definition useListArticles : Query :=
  {| queryKey := [KStr "article"; KStr "list"]; enabled := true |}.

Definition useArticle (id : string) : Query :=
  {| queryKey := [KStr "article"; KStr "id"; KStr id];
     enabled := truthy_string (Some id) |}.

Definition useArticleLookup (organization_name slug : option string) : Query :=
  {| queryKey := [KStr "article"; KStr "lookup";
                  key_string organization_name; key_string slug];
     enabled := truthy_string organization_name && truthy_string slug |}.

Definition useArticleReceivers
    (organizationName : string) (paidSubscribersOnly : bool) : Query :=
  {| queryKey := [KStr "article"; KStr "receivers";
                  KStr organizationName; KBool paidSubscribersOnly];
     enabled := true |}.

(** The keys the [onSuccess] of each mutation passes to
    [invalidateQueries], for a result of organization [organization_name]
    and id [id]. *)
Definition useCreateArticle_invalidates (organization_name : string)
  : list (list KeyPart) :=
  [[KStr "article"; KStr "organization"; KStr organization_name];
   [KStr "article"; KStr "list"]].

Definition useUpdateArticle_invalidates (organization_name id : string)
  : list (list KeyPart) :=
  [[KStr "article"; KStr "organization"; KStr organization_name];
   [KStr "article"; KStr "id"; KStr id];
   [KStr "article"; KStr "lookup"];
   [KStr "article"; KStr "list"]].

Definition useDeleteArticle_invalidates : list (list KeyPart) :=
  [[KStr "article"]].

(** [invalidateQueries({ queryKey })] reaches the queries whose key
    starts with [queryKey]. *)
Definition invalidated (filters : list (list KeyPart)) (q : Query) : bool :=
  existsb (fun f => bool_decide (f `prefix_of` queryKey q)) filters.

(* ===================================================================== *)
(** * Rounded operations on binary64 numbers *)
(* ===================================================================== *)

(** ** Bit lengths and right shifts *)

Lemma digits2_size p : digits2_pos p = Pos.size p.
Proof. induction p; simpl; congruence. Qed.

Lemma digits2_bounds p :
  2 ^ (Z.pos (digits2_pos p) - 1) <= Z.pos p < 2 ^ Z.pos (digits2_pos p).
Proof.
  rewrite digits2_size. split.
  - pose proof (Pos.size_le p) as H.
    assert (H' : 2 ^ Z.pos (Pos.size p) <= 2 * Z.pos p).
    { change (2 * Z.pos p) with (Z.pos p~0).
      rewrite <- (Pos2Z.inj_pow 2). apply Pos2Z.pos_le_pos. exact H. }
    replace (Z.pos (Pos.size p)) with (Z.succ (Z.pos (Pos.size p) - 1)) in H' by lia.
    rewrite Z.pow_succ_r in H' by lia. lia.
  - pose proof (Pos.size_gt p) as H.
    rewrite <- (Pos2Z.inj_pow 2). apply Pos2Z.pos_lt_pos. exact H.
Qed.

Lemma shr_1_m mrs : 0 <= shr_m mrs -> shr_m (shr_1 mrs) = shr_m mrs / 2.
Proof.
  destruct mrs as [m r s]. simpl. intros Hm.
  destruct m as [|p|p]; try lia; [reflexivity|].
  destruct p as [p|p|]; simpl.
  - rewrite Pos2Z.inj_xI. apply Z.div_unique with 1; lia.
  - rewrite Pos2Z.inj_xO. apply Z.div_unique with 0; lia.
  - reflexivity.
Qed.

Lemma shr_iter_m p : forall mrs,
  0 <= shr_m mrs -> shr_m (SpecFloat.iter_pos shr_1 p mrs) = shr_m mrs / 2 ^ Z.pos p.
Proof.
  assert (Hnn : forall mrs, 0 <= shr_m mrs -> 0 <= shr_m (shr_1 mrs)).
  { intros mrs H. rewrite shr_1_m by assumption. apply Z.div_pos; lia. }
  induction p as [p IH|p IH|]; intros mrs Hm; cbn [SpecFloat.iter_pos].
  - rewrite IH, IH, shr_1_m; try assumption.
    + rewrite !Z.div_div by (try apply Z.pow_pos_nonneg; lia).
      f_equal. replace (Z.pos p~1) with (1 + Z.pos p + Z.pos p) by lia.
      rewrite !Z.pow_add_r by lia. change (2 ^ 1) with 2. ring.
    + rewrite shr_1_m by assumption. apply Z.div_pos; lia.
    + rewrite IH by (apply Hnn; assumption).
      apply Z.div_pos; [apply Hnn; assumption|apply Z.pow_pos_nonneg; lia].
  - rewrite IH, IH; try assumption.
    + rewrite !Z.div_div by (try apply Z.pow_pos_nonneg; lia).
      f_equal. replace (Z.pos p~0) with (Z.pos p + Z.pos p) by lia.
      rewrite Z.pow_add_r by lia. ring.
    + rewrite IH by assumption. apply Z.div_pos; [assumption|apply Z.pow_pos_nonneg; lia].
  - rewrite shr_1_m by assumption. reflexivity.
Qed.


Lemma fexp_eq e : fexp e = Z.max (e - 53) (-1074).
Proof. reflexivity. Qed.

Lemma Zdigits2_bounds m :
  0 <= m -> m < 2 ^ Zdigits2 m /\ (0 < m -> 2 ^ (Zdigits2 m - 1) <= m).
Proof.
  intros Hm. destruct m as [|p|p]; try lia.
  - simpl. split; lia.
  - pose proof (digits2_bounds p). simpl Zdigits2. split; [lia|intros _; lia].
Qed.

Lemma Zdigits2_nonneg m : 0 <= Zdigits2 m.
Proof. destruct m; simpl; lia. Qed.

Lemma Zdigits2_unique m k :
  0 < m -> 2 ^ (k - 1) <= m < 2 ^ k -> Zdigits2 m = k.
Proof.
  intros Hm [Hlo Hhi].
  destruct (Zdigits2_bounds m ltac:(lia)) as [Hd1 Hd2]. specialize (Hd2 Hm).
  pose proof (Zdigits2_nonneg m) as Hd0.
  assert (Hk : 0 < k).
  { destruct (Z.le_gt_cases k 0) as [Hk|Hk]; [|assumption].
    assert (2 ^ k <= 2 ^ 0) by (apply Z.pow_le_mono_r; lia). simpl in *. lia. }
  assert (Zdigits2 m - 1 < k).
  { apply (Z.pow_lt_mono_r_iff 2); lia. }
  assert (k - 1 < Zdigits2 m).
  { apply (Z.pow_lt_mono_r_iff 2); lia. }
  lia.
Qed.

Lemma Zdigits2_le m k : 0 <= m -> 0 <= k -> m < 2 ^ k -> Zdigits2 m <= k.
Proof.
  intros Hm Hk Hlt.
  destruct (Z.eq_dec m 0) as [->|Hne]; [simpl; lia|].
  destruct (Zdigits2_bounds m Hm) as [_ Hd]. specialize (Hd ltac:(lia)).
  assert (Zdigits2 m - 1 < k) by (apply (Z.pow_lt_mono_r_iff 2); lia).
  lia.
Qed.

(** ** Truncating and rounding a mantissa

    [binary_round_aux] shifts the mantissa right until it fits, rounds to
    nearest even, and shifts once more if the rounding carried. *)

Lemma shr_record_of_loc_m m l : shr_m (shr_record_of_loc m l) = m.
Proof. destruct l as [|[| |]]; reflexivity. Qed.

Lemma loc_of_shr_record_of_loc m l :
  loc_of_shr_record (shr_record_of_loc m l) = l.
Proof. destruct l as [|[| |]]; reflexivity. Qed.

Lemma shr_fexp_spec m e l :
  0 <= m -> e <= fexp (Zdigits2 m + e) ->
  exists mrs,
    shr_fexp prec emax m e l = (mrs, fexp (Zdigits2 m + e)) /\
    shr_m mrs = m / 2 ^ (fexp (Zdigits2 m + e) - e) /\
    (fexp (Zdigits2 m + e) = e -> mrs = shr_record_of_loc m l).
Proof.
  intros Hm Hn. unfold shr_fexp, shr.
  remember (fexp (Zdigits2 m + e) - e) as n eqn:En.
  destruct n as [|p|p]; try lia.
  - exists (shr_record_of_loc m l). replace (fexp (Zdigits2 m + e)) with e by lia.
    rewrite shr_record_of_loc_m, Z.div_1_r. auto.
  - eexists. split; [|split].
    + f_equal. lia.
    + rewrite shr_iter_m; rewrite shr_record_of_loc_m; auto.
    + intros. lia.
Qed.

Lemma trunc_bounds m e :
  0 <= m -> e <= fexp (Zdigits2 m + e) ->
  let e' := fexp (Zdigits2 m + e) in
  let m' := m / 2 ^ (e' - e) in
  0 <= m' < 2 ^ 53 /\ (2 ^ 52 <= m' \/ e' = -1074) /\
  m' * 2 ^ (e' - e) <= m < (m' + 1) * 2 ^ (e' - e).
Proof.
  intros Hm Hn e' m'.
  assert (Hp : 0 < 2 ^ (e' - e)) by (apply Z.pow_pos_nonneg; lia).
  destruct (Zdigits2_bounds m Hm) as [Hd1 Hd2].
  pose proof (Zdigits2_nonneg m) as Hd0.
  assert (He' : e' = Z.max (Zdigits2 m + e - 53) (-1074)) by reflexivity.
  split; [split|split].
  - apply Z.div_pos; lia.
  - apply Z.div_lt_upper_bound; [lia|].
    rewrite <- Z.pow_add_r by lia.
    eapply Z.lt_le_trans; [exact Hd1|]. apply Z.pow_le_mono_r; lia.
  - destruct (Z.max_spec (Zdigits2 m + e - 53) (-1074)) as [[H1 H2]|[H1 H2]].
    + right. lia.
    + left. destruct (Z.eq_dec m 0) as [->|Hne].
      * simpl in *. lia.
      * apply Z.div_le_lower_bound; [lia|].
        rewrite <- Z.pow_add_r by lia.
        replace (e' - e + 52) with (Zdigits2 m - 1) by lia. apply Hd2. lia.
  - pose proof (Z.mul_div_le m _ Hp). pose proof (Z.mul_succ_div_gt m _ Hp).
    fold m' in H, H0. lia.
Qed.


Lemma round_nearest_even_cases m l :
  (round_nearest_even m l = m \/ round_nearest_even m l = m + 1) /\
  (l = loc_Exact -> round_nearest_even m l = m).
Proof.
  destruct l as [|[| |]]; simpl; (split; [|intros; try discriminate; auto]); auto.
  destruct (Z.even m); auto.
Qed.

Lemma binary_round_aux_spec s mx ex lx :
  0 <= mx -> ex <= fexp (Zdigits2 mx + ex) ->
  let e' := fexp (Zdigits2 mx + ex) in
  let m' := mx / 2 ^ (e' - ex) in
  exists m e,
    binary_round_aux prec emax s mx ex lx = pack s m e /\
    0 <= m < 2 ^ 53 /\ e' <= e /\ (2 ^ 52 <= m \/ e = -1074) /\
    m' <= m * 2 ^ (e - e') <= m' + 1 /\
    (lx = loc_Exact -> e' = ex -> m = mx /\ e = ex).
Proof.
  intros Hm Hn e' m'.
  destruct (trunc_bounds mx ex Hm Hn) as [Hb [Hc Hd]]. fold e' in Hb, Hc, Hd. fold m' in Hb, Hc, Hd.
  unfold binary_round_aux.
  destruct (shr_fexp_spec mx ex lx Hm Hn) as [mrs [E1 [E2 E3]]].
  rewrite E1. fold e' in E2, E3 |- *. fold m' in E2.
  rewrite E2.
  set (mr := round_nearest_even m' (loc_of_shr_record mrs)).
  destruct (round_nearest_even_cases m' (loc_of_shr_record mrs)) as [Hr Hx]. fold mr in Hr, Hx.
  assert (He'min : -1074 <= e') by (unfold e'; rewrite fexp_eq; lia).
  assert (Hmr : 0 <= mr <= 2 ^ 53) by lia.
  destruct (Z.eq_dec mr (2 ^ 53)) as [Htop|Hntop].
  - (* carry into the next binade *)
    assert (Hf : fexp (Zdigits2 mr + e') = e' + 1).
    { rewrite Htop. change (Zdigits2 (2 ^ 53)) with 54. rewrite fexp_eq. lia. }
    destruct (shr_fexp_spec mr e' loc_Exact ltac:(lia) ltac:(lia)) as [mrs2 [F1 [F2 _]]].
    rewrite F1, F2, Hf. replace (e' + 1 - e') with 1 by lia.
    exists (2 ^ 52), (e' + 1). rewrite Htop.
    change (2 ^ 53 / 2 ^ 1) with (2 ^ 52).
    split; [reflexivity|]. split; [lia|]. split; [lia|]. split; [left; lia|].
    split.
    + replace (e' + 1 - e') with 1 by lia. change (2 ^ 52 * 2 ^ 1) with (2 ^ 53). lia.
    + intros Hl He. exfalso.
      rewrite E3 in Hx by assumption. rewrite loc_of_shr_record_of_loc in Hx.
      specialize (Hx Hl). lia.
  - assert (Hf : fexp (Zdigits2 mr + e') = e').
    { rewrite fexp_eq. destruct (Z_lt_le_dec mr (2 ^ 52)) as [Hsm|Hbg].
      - assert (e' = -1074) by lia.
        pose proof (Zdigits2_le mr 52 ltac:(lia) ltac:(lia) Hsm). lia.
      - rewrite (Zdigits2_unique mr 53) by (change (2 ^ (53 - 1)) with (2 ^ 52); lia). lia. }
    destruct (shr_fexp_spec mr e' loc_Exact ltac:(lia) ltac:(lia)) as [mrs2 [F1 [F2 _]]].
    rewrite F1, F2, Hf. replace (e' - e') with 0 by lia. rewrite Z.div_1_r.
    exists mr, e'. split; [reflexivity|]. split; [lia|]. split; [lia|].
    split; [lia|]. split.
    + replace (e' - e') with 0 by lia. lia.
    + intros Hl He. rewrite E3 in Hx by assumption. rewrite loc_of_shr_record_of_loc in Hx.
      specialize (Hx Hl). split; [|assumption].
      rewrite Hx. unfold m'. rewrite He. replace (ex - ex) with 0 by lia. apply Z.div_1_r.
Qed.

(** ** Real values *)

Lemma bpow_pos e : (0 < bpow e)%R.
Proof. apply powerRZ_lt. lra. Qed.

Lemma bpow_add a b : bpow (a + b) = (bpow a * bpow b)%R.
Proof. apply powerRZ_add. lra. Qed.

Lemma IZR_pow2 k : 0 <= k -> IZR (2 ^ k) = bpow k.
Proof.
  intros Hk. destruct k as [|p|p]; try lia.
  - simpl. reflexivity.
  - change (2 ^ Z.pos p) with (Z.pow_pos 2 p). apply Zpower_pos_powerRZ.
Qed.

Lemma bpow_le a b : a <= b -> (bpow a <= bpow b)%R.
Proof.
  intros H. replace b with (a + (b - a)) by lia. rewrite bpow_add.
  rewrite <- (IZR_pow2 (b - a)) by lia.
  assert (1 <= 2 ^ (b - a)) by (apply (Z.pow_le_mono_r 2 0); lia).
  apply IZR_le in H0. pose proof (bpow_pos a). nra.
Qed.

Lemma F2R_scale m e k : 0 <= k -> F2R (m * 2 ^ k) e = F2R m (e + k).
Proof.
  intros Hk. unfold F2R. rewrite mult_IZR, IZR_pow2, bpow_add by assumption. ring.
Qed.

Lemma F2R_le m1 m2 e : m1 <= m2 -> (F2R m1 e <= F2R m2 e)%R.
Proof.
  intros H. unfold F2R. apply IZR_le in H. pose proof (bpow_pos e). nra.
Qed.

Lemma F2R_lt m1 m2 e : m1 < m2 -> (F2R m1 e < F2R m2 e)%R.
Proof.
  intros H. unfold F2R. apply IZR_lt in H. pose proof (bpow_pos e). nra.
Qed.

Lemma F2R_nonneg m e : 0 <= m -> (0 <= F2R m e)%R.
Proof.
  intros H. unfold F2R. apply IZR_le in H. pose proof (bpow_pos e). nra.
Qed.

Lemma F2R_succ m e : F2R (m + 1) e = (F2R m e + bpow e)%R.
Proof. unfold F2R. rewrite plus_IZR. ring. Qed.


Lemma ulp_normal m e : 2 ^ 52 <= m -> (bpow e <= eps * F2R m e)%R.
Proof.
  intros H. unfold eps, F2R. apply IZR_le in H. rewrite IZR_pow2 in H by lia.
  pose proof (bpow_pos e). pose proof (bpow_pos (-52)).
  assert (bpow (-52) * bpow 52 = 1)%R.
  { rewrite <- bpow_add. reflexivity. }
  assert (1 <= bpow (-52) * IZR m)%R by nra.
  nra.
Qed.

(** A rounded result is within one unit in the last place of the exact
    value, and the sum of two numbers is exact whenever it needs no
    shift. *)
Lemma round_bounds s mx ex lx :
  0 <= mx -> ex <= fexp (Zdigits2 mx + ex) ->
  exists m e,
    binary_round_aux prec emax s mx ex lx = pack s m e /\
    rounded m e /\
    (F2R m e <= F2R mx ex * (1 + eps) + eta)%R /\
    (lx = loc_Exact -> -1074 <= ex -> (F2R mx ex <= F2R m e * (1 + eps))%R).
Proof.
  intros Hm Hn.
  destruct (binary_round_aux_spec s mx ex lx Hm Hn) as (m & e & E & Hb & He & Hc & Hv & Hx).
  destruct (trunc_bounds mx ex Hm Hn) as [Hb' [Hc' Hd']].
  set (e' := fexp (Zdigits2 mx + ex)) in *.
  set (m' := mx / 2 ^ (e' - ex)) in *.
  assert (He'min : -1074 <= e') by (unfold e'; rewrite fexp_eq; lia).
  exists m, e. split; [exact E|]. split; [repeat split; lia|].
  assert (Hme : F2R m e = F2R (m * 2 ^ (e - e')) e').
  { rewrite F2R_scale by lia. f_equal. lia. }
  assert (Hmx : F2R mx ex = F2R mx ex) by reflexivity.
  assert (Hlo : (F2R m' e' <= F2R mx ex)%R).
  { replace e' with (ex + (e' - ex)) at 1 by lia. rewrite <- F2R_scale by lia.
    apply F2R_le. lia. }
  assert (Hhi : (F2R mx ex < F2R m' e' + bpow e')%R).
  { rewrite <- F2R_succ. replace e' with (ex + (e' - ex)) at 1 by lia.
    rewrite <- F2R_scale by lia. apply F2R_lt. lia. }
  assert (Hfl : (F2R m' e' <= F2R m e <= F2R m' e' + bpow e')%R).
  { rewrite Hme, <- F2R_succ. split; apply F2R_le; lia. }
  assert (Hm'0 : (0 <= F2R m' e')%R) by (apply F2R_nonneg; lia).
  pose proof (bpow_pos e') as Hu.
  assert (Heps : (0 < eps)%R) by apply bpow_pos.
  assert (Heta : (0 < eta)%R) by apply bpow_pos.
  split.
  - destruct Hc' as [Hn52|Hsub].
    + pose proof (ulp_normal m' e' Hn52). nra.
    + rewrite Hsub in *. fold eta in Hfl, Hu. nra.
  - intros Hl Hex. destruct (Z.eq_dec e' ex) as [Heq|Hne].
    + destruct (Hx Hl Heq) as [-> ->].
      assert (0 <= F2R mx ex)%R by (apply F2R_nonneg; lia). nra.
    + destruct Hc' as [Hn52|Hsub]; [|lia].
      pose proof (ulp_normal m' e' Hn52). nra.
Qed.

(** ** Division and addition of positive numbers *)

Lemma fexp_mono a b : a <= b -> fexp a <= fexp b.
Proof. intros H. rewrite !fexp_eq. lia. Qed.

Lemma eps_small : (0 < eps <= / 128)%R.
Proof.
  split; [apply bpow_pos|].
  unfold eps. eapply Rle_trans; [apply (bpow_le (-52) (-7)); lia|].
  unfold bpow. simpl. lra.
Qed.

Lemma eta_small : (0 < eta <= / 128)%R.
Proof.
  split; [apply bpow_pos|].
  unfold eta. eapply Rle_trans; [apply (bpow_le (-1074) (-7)); lia|].
  unfold bpow. simpl. lra.
Qed.

Lemma div_core_spec m1 e1 m2 e2 :
  exists q e' l,
    SFdiv_core_binary prec emax (Z.pos m1) e1 (Z.pos m2) e2 = (q, e', l) /\
    0 <= q /\ e' <= fexp (Zdigits2 q + e') /\
    (F2R q e' * F2R (Z.pos m2) e2 <= F2R (Z.pos m1) e1)%R.
Proof.
  unfold SFdiv_core_binary.
  set (d1 := Zdigits2 (Z.pos m1)). set (d2 := Zdigits2 (Z.pos m2)).
  set (e' := Z.min (fexp (d1 + e1 - (d2 + e2))) (e1 - e2)).
  set (s := e1 - e2 - e').
  assert (Hs : 0 <= s) by (unfold s, e'; lia).
  set (m' := match s with Z.pos _ => Z.shiftl (Z.pos m1) s | 0 => Z.pos m1 | Z.neg _ => 0 end).
  assert (Hm' : m' = Z.pos m1 * 2 ^ s).
  { unfold m'. clearbody s. destruct s as [|p|p]; try lia.
    apply Z.shiftl_mul_pow2. lia. }
  clearbody m'.
  pose proof (Z_div_mod m' (Z.pos m2) ltac:(lia)) as Hdm.
  destruct (Z.div_eucl m' (Z.pos m2)) as [q r]. destruct Hdm as [Hdm Hr].
  exists q, e', (new_location (Z.pos m2) r). split; [reflexivity|].
  assert (Hp : 0 < 2 ^ s) by (apply Z.pow_pos_nonneg; lia).
  assert (Hq : 0 <= q) by nia.
  split; [exact Hq|]. split.
  - apply Z.le_trans with (fexp (d1 + e1 - (d2 + e2))); [unfold e'; lia|].
    apply fexp_mono.
    destruct (Z_lt_le_dec (Zdigits2 q) (d1 + s - d2)) as [Hlt|Hge]; [exfalso|unfold s in Hge; lia].
    destruct (Zdigits2_bounds q Hq) as [Hq1 _].
    destruct (Zdigits2_bounds (Z.pos m1) ltac:(lia)) as [_ H1]. specialize (H1 ltac:(lia)).
    destruct (Zdigits2_bounds (Z.pos m2) ltac:(lia)) as [H2 _].
    fold d1 in H1. fold d2 in H2.
    pose proof (Zdigits2_nonneg q) as Hdq.
    assert (Hd2 : 0 < d2) by (unfold d2; simpl; lia).
    assert (Hd1 : 0 < d1) by (unfold d1; simpl; lia).
    assert (Hq2 : q + 1 <= 2 ^ (d1 + s - d2 - 1)).
    { assert (2 ^ Zdigits2 q <= 2 ^ (d1 + s - d2 - 1)) by (apply Z.pow_le_mono_r; lia). lia. }
    assert (Hprod : Z.pos m2 * (q + 1) < 2 ^ d2 * 2 ^ (d1 + s - d2 - 1)).
    { apply Z.le_lt_trans with (Z.pos m2 * 2 ^ (d1 + s - d2 - 1)).
      - apply Z.mul_le_mono_nonneg_l; lia.
      - apply Z.mul_lt_mono_pos_r; [apply Z.pow_pos_nonneg; lia|lia]. }
    rewrite <- Z.pow_add_r in Hprod by lia.
    replace (d2 + (d1 + s - d2 - 1)) with ((d1 - 1) + s) in Hprod by lia.
    rewrite Z.pow_add_r in Hprod by lia.
    assert (2 ^ (d1 - 1) * 2 ^ s <= Z.pos m1 * 2 ^ s) by (apply Z.mul_le_mono_nonneg_r; lia).
    lia.
  - replace e1 with ((e' + e2) + s) by (unfold s; lia).
    rewrite <- F2R_scale by lia. rewrite <- Hm'.
    replace (F2R q e' * F2R (Z.pos m2) e2)%R with (F2R (Z.pos m2 * q) (e' + e2)).
    + apply F2R_le. lia.
    + unfold F2R. rewrite mult_IZR, bpow_add. ring.
Qed.

Lemma SFdiv_bound m1 e1 m2 e2 :
  exists m e,
    SFdiv prec emax (S754_finite false m1 e1) (S754_finite false m2 e2) = pack false m e /\
    rounded m e /\
    (F2R m e * F2R (Z.pos m2) e2
       <= F2R (Z.pos m1) e1 * (1 + eps) + eta * F2R (Z.pos m2) e2)%R.
Proof.
  destruct (div_core_spec m1 e1 m2 e2) as (q & e' & l & E & Hq & Hn & Hv).
  unfold SFdiv. rewrite E. simpl xorb.
  destruct (round_bounds false q e' l Hq Hn) as (m & e & E2 & Hr & Hu & _).
  exists m, e. split; [exact E2|]. split; [exact Hr|].
  assert (HY : (0 < F2R (Z.pos m2) e2)%R).
  { unfold F2R. pose proof (bpow_pos e2). assert (0 < IZR (Z.pos m2))%R by (apply IZR_lt; lia). nra. }
  pose proof eps_small. nra.
Qed.

Lemma shl_align_spec mx ex ex' :
  snd (shl_align mx ex ex') = Z.min ex ex' /\
  Z.pos (fst (shl_align mx ex ex')) = Z.pos mx * 2 ^ (ex - Z.min ex ex').
Proof.
  unfold shl_align. destruct (ex' - ex) as [|d|d] eqn:E; cbn [fst snd].
  - split; [lia|]. replace (ex - Z.min ex ex') with 0 by lia. lia.
  - split; [lia|]. replace (ex - Z.min ex ex') with 0 by lia. lia.
  - split; [lia|]. change (Pos.iter xO mx d) with (shift_pos d mx).
    rewrite shift_pos_correct. replace (ex - Z.min ex ex') with (Z.pos d) by lia.
    change (Z.pow_pos 2 d) with (2 ^ Z.pos d). lia.
Qed.

Lemma Zdigits2_shift m k : 0 < m -> 0 <= k -> Zdigits2 (m * 2 ^ k) = Zdigits2 m + k.
Proof.
  intros Hm Hk. destruct (Zdigits2_bounds m ltac:(lia)) as [H1 H2]. specialize (H2 Hm).
  assert (Hp : 0 < 2 ^ k) by (apply Z.pow_pos_nonneg; lia).
  assert (Hd : 0 < Zdigits2 m) by (destruct m; simpl; lia).
  apply Zdigits2_unique; [nia|].
  replace (Zdigits2 m + k - 1) with ((Zdigits2 m - 1) + k) by lia.
  rewrite !Z.pow_add_r by lia. nia.
Qed.

Lemma SFadd_bound m1 e1 m2 e2 :
  -1074 <= e1 -> -1074 <= e2 ->
  exists m e,
    SFadd prec emax (S754_finite false m1 e1) (S754_finite false m2 e2) = pack false m e /\
    rounded m e /\
    (F2R (Z.pos m1) e1 + F2R (Z.pos m2) e2 <= F2R m e * (1 + eps))%R.
Proof.
  intros H1 H2. unfold SFadd. cbv zeta. unfold cond_Zopp.
  set (ez := Z.min e1 e2).
  destruct (shl_align_spec m1 e1 ez) as [_ A1]. destruct (shl_align_spec m2 e2 ez) as [_ A2].
  replace (Z.min e1 ez) with ez in A1 by (unfold ez; lia).
  replace (Z.min e2 ez) with ez in A2 by (unfold ez; lia).
  set (p1 := fst (shl_align m1 e1 ez)) in *. set (p2 := fst (shl_align m2 e2 ez)) in *.
  change (Z.pos p1 + Z.pos p2) with (Z.pos (p1 + p2)).
  unfold binary_normalize, binary_round.
  set (f := fexp (Z.pos (digits2_pos (p1 + p2)) + ez)).
  destruct (shl_align_spec (p1 + p2) ez f) as [B1 B2].
  destruct (shl_align (p1 + p2) ez f) as [mz ez2]. cbn [fst snd] in B1, B2.
  assert (Hf : -1074 <= f) by (unfold f; rewrite fexp_eq; lia).
  assert (Hez : -1074 <= ez) by (unfold ez; lia).
  assert (Hn : ez2 <= fexp (Zdigits2 (Z.pos mz) + ez2)).
  { rewrite B2, Zdigits2_shift by lia.
    replace (Zdigits2 (Z.pos (p1 + p2)) + (ez - Z.min ez f) + ez2) with
      (Z.pos (digits2_pos (p1 + p2)) + ez) by (simpl Zdigits2; lia).
    fold f. lia. }
  destruct (round_bounds false (Z.pos mz) ez2 loc_Exact ltac:(lia) Hn)
    as (m & e & E & Hr & _ & Hl).
  exists m, e. split; [exact E|]. split; [exact Hr|].
  specialize (Hl eq_refl ltac:(lia)).
  replace (F2R (Z.pos m1) e1 + F2R (Z.pos m2) e2)%R with (F2R (Z.pos mz) ez2); [exact Hl|].
  rewrite B2. rewrite F2R_scale by lia. replace (ez2 + (ez - Z.min ez f)) with ez by lia.
  rewrite Pos2Z.inj_add, A1, A2. unfold F2R at 1. rewrite plus_IZR.
  rewrite Rmult_plus_distr_r. fold (F2R (Z.pos m1 * 2 ^ (e1 - ez)) ez).
  fold (F2R (Z.pos m2 * 2 ^ (e2 - ez)) ez).
  rewrite !F2R_scale by (unfold ez; lia).
  replace (ez + (e1 - ez)) with e1 by lia. replace (ez + (e2 - ez)) with e2 by lia.
  reflexivity.
Qed.

(** ** [Math.floor] of a small rounded result *)

Lemma rounded_small m e : rounded m e -> 0 < m -> (F2R m e < bpow 52)%R -> e < 0.
Proof.
  intros (Hm & He & Hc) Hpos Hlt.
  destruct (Z_lt_le_dec e 0) as [|Hge]; [assumption|exfalso].
  destruct Hc as [Hc|Hc]; [|lia].
  assert (bpow 52 <= F2R m e)%R; [|lra].
  unfold F2R. apply IZR_le in Hc. rewrite IZR_pow2 in Hc by lia.
  pose proof (bpow_le 0 e Hge) as H0. change (bpow 0) with 1%R in H0.
  pose proof (bpow_pos 52). nra.
Qed.

Lemma bpow52_big : (8 <= bpow 52)%R.
Proof.
  eapply Rle_trans; [|apply (bpow_le 3 52); lia]. unfold bpow. simpl. lra.
Qed.

Lemma pack_small m e :
  rounded m e -> (F2R m e < bpow 52)%R ->
  pack false m e = S754_zero false /\ m = 0 \/
  exists p, m = Z.pos p /\ e < 0 /\ pack false m e = S754_finite false p e.
Proof.
  intros Hr Hlt. destruct m as [|p|p].
  - left. auto.
  - right. exists p. pose proof (rounded_small _ _ Hr ltac:(lia) Hlt) as He.
    split; [reflexivity|]. split; [assumption|]. unfold pack.
    replace (e <=? emax - prec) with true; [reflexivity|].
    symmetry. apply Z.leb_le. unfold emax, prec. lia.
  - destruct Hr as [[? ?] _]. lia.
Qed.

Lemma floor_pack m e :
  rounded m e -> (F2R m e < 6)%R ->
  exists k, 0 <= k <= 5 /\ floor (pack false m e) = of_Z k /\ (IZR k <= F2R m e)%R.
Proof.
  intros Hr Hlt. pose proof bpow52_big as Hbig.
  destruct (pack_small m e Hr ltac:(lra)) as [[E Hm]|(p & Hm & He & E)].
  - exists 0. rewrite E, Hm. split; [lia|]. split; [reflexivity|]. unfold F2R. lra.
  - rewrite E. unfold floor. replace (0 <=? e) with false by (symmetry; apply Z.leb_gt; lia).
    unfold cond_Zopp. rewrite Z.shiftr_div_pow2 by lia.
    set (k := Z.pos p / 2 ^ (- e)).
    assert (Hp : 0 < 2 ^ (- e)) by (apply Z.pow_pos_nonneg; lia).
    assert (Hk0 : 0 <= k) by (apply Z.div_pos; lia).
    assert (Hk1 : k * 2 ^ (- e) <= Z.pos p).
    { pose proof (Z.mul_div_le (Z.pos p) _ Hp). fold k in H. lia. }
    assert (Hk2 : (IZR k <= F2R m e)%R).
    { replace (IZR k) with (F2R k (e + - e)).
      - rewrite <- F2R_scale by lia. apply F2R_le. lia.
      - unfold F2R. replace (e + - e) with 0 by lia. change (bpow 0) with 1%R. ring. }
    assert (Hk5 : k <= 5).
    { assert (IZR k < 6)%R by lra. apply lt_IZR in H. lia. }
    exists k. split; [lia|]. split; [|assumption].
    destruct k as [|q|q]; try lia; reflexivity.
Qed.

(** ** One box count

    [floor (a / total / threshold)] for a non-negative [a] and a positive
    finite [total]. *)

Lemma nonneg_pos_or_zero x : nonneg x -> pos_or_zero x.
Proof. intros [H|(m & e & H & _)]; [left|right]; eauto. Qed.

Lemma B2R_pos_or_zero x : pos_or_zero x -> (0 <= B2R x)%R.
Proof.
  intros [->|(m & e & ->)]; simpl; [lra|]. apply F2R_nonneg. lia.
Qed.

Lemma B2R_finite_pos m e : (0 < B2R (S754_finite false m e))%R.
Proof.
  simpl. unfold F2R. pose proof (bpow_pos e).
  assert (0 < IZR (Z.pos m))%R by (apply IZR_lt; lia). nra.
Qed.

Lemma div_bound A mt et :
  pos_or_zero A ->
  exists m e,
    div A (S754_finite false mt et) = pack false m e /\ rounded m e /\
    (F2R m e * B2R (S754_finite false mt et)
       <= B2R A * (1 + eps) + eta * B2R (S754_finite false mt et))%R.
Proof.
  intros [->|(ma & ea & ->)].
  - exists 0, (-1074). split; [reflexivity|]. split; [repeat split; lia|].
    pose proof (B2R_finite_pos mt et). pose proof eta_small.
    unfold F2R at 1. simpl (B2R (S754_zero false)). nra.
  - destruct (SFdiv_bound ma ea mt et) as (m & e & E & Hr & Hb).
    exists m, e. split; [exact E|]. split; [exact Hr|exact Hb].
Qed.

Lemma threshold_eq : threshold = S754_finite false 7205759403792794 (-55).
Proof. vm_compute. reflexivity. Qed.

Lemma threshold_val : (/ 5 <= B2R threshold)%R.
Proof.
  rewrite threshold_eq. simpl. unfold F2R.
  assert (H : (bpow (-55) * bpow 55 = 1)%R) by (rewrite <- bpow_add; reflexivity).
  rewrite <- (IZR_pow2 55) in H by lia.
  change (2 ^ 55) with 36028797018963968 in H.
  pose proof (bpow_pos (-55)). lra.
Qed.

Lemma pack_pos_or_zero m e :
  rounded m e -> (F2R m e < bpow 52)%R ->
  pos_or_zero (pack false m e) /\ B2R (pack false m e) = F2R m e.
Proof.
  intros Hr Hlt. destruct (pack_small m e Hr Hlt) as [[E Hm]|(p & Hm & He & E)]; rewrite E.
  - split; [left; reflexivity|]. rewrite Hm. unfold F2R. simpl. ring.
  - split; [right; eauto|]. rewrite Hm. reflexivity.
Qed.

Lemma box_bound A mt et :
  let T := S754_finite false mt et in
  pos_or_zero A -> (B2R A <= B2R T * (1 + eps))%R ->
  exists m e,
    div (div A T) threshold = pack false m e /\ rounded m e /\
    (F2R m e * B2R T
       <= 5 * (1 + eps) * (B2R A * (1 + eps) + eta * B2R T) + eta * B2R T)%R.
Proof.
  intros T HA Hle.
  pose proof (B2R_finite_pos mt et) as HT. fold T in HT.
  pose proof (B2R_pos_or_zero A HA) as HA0.
  pose proof eps_small as He. pose proof eta_small as Hh. pose proof bpow52_big as Hbig.
  destruct (div_bound A mt et HA) as (m1 & e1 & E1 & R1 & B1). fold T in E1, B1.
  assert (HX : (F2R m1 e1 < bpow 52)%R).
  { assert (F2R m1 e1 * B2R T <= 2 * B2R T)%R by nra.
    assert (F2R m1 e1 <= 2)%R by nra. lra. }
  destruct (pack_pos_or_zero m1 e1 R1 HX) as [Hx Vx].
  rewrite E1. pose proof threshold_val as Hc. rewrite threshold_eq in Hc |- *.
  destruct (div_bound (pack false m1 e1) 7205759403792794 (-55) Hx) as (m & e & E & Hr & B).
  rewrite Vx in B.
  exists m, e. split; [exact E|]. split; [exact Hr|].
  set (VC := B2R (S754_finite false 7205759403792794 (-55))) in *.
  assert (HX0 : (0 <= F2R m1 e1)%R) by (apply F2R_nonneg; destruct R1 as [[? ?] _]; lia).
  assert (HR : (F2R m e <= 5 * (F2R m1 e1 * (1 + eps)) + eta)%R).
  { destruct (Rle_dec (F2R m e) (5 * (F2R m1 e1 * (1 + eps)) + eta)) as [|Hn]; [assumption|].
    exfalso. apply Rnot_le_lt in Hn.
    assert (0 <= F2R m1 e1 * (1 + eps))%R by nra.
    assert ((F2R m e - eta) * / 5 <= (F2R m e - eta) * VC)%R.
    { apply Rmult_le_compat_l; [lra|exact Hc]. }
    lra. }
  assert (F2R m e * B2R T <= (5 * (F2R m1 e1 * (1 + eps)) + eta) * B2R T)%R by nra.
  nra.
Qed.

Lemma boxes_sum_lt VT VA VD RA RB :
  (0 < VT -> 0 <= VA -> 0 <= VD -> VA + VD <= VT * (1 + eps) ->
   RA * VT <= 5 * (1 + eps) * (VA * (1 + eps) + eta * VT) + eta * VT ->
   RB * VT <= 5 * (1 + eps) * (VD * (1 + eps) + eta * VT) + eta * VT ->
   RA + RB < 6)%R.
Proof.
  intros HT HA HD Hs Ha Hb.
  pose proof eps_small as He. pose proof eta_small as Hh.
  set (a := (1 + eps)%R) in *.
  assert (Ha1 : (1 < a <= 129 / 128)%R) by (unfold a; lra).
  assert (Ha2 : (a * a <= 17 / 16)%R) by nra.
  assert (H1 : ((RA + RB) * VT <= 5 * a * ((VA + VD) * a + 2 * eta * VT) + 2 * eta * VT)%R) by nra.
  assert (H2 : ((VA + VD) * a <= VT * (a * a))%R) by nra.
  assert (H3 : ((VA + VD) * a + 2 * eta * VT <= VT * (9 / 8))%R) by nra.
  assert (H4 : (5 * a * ((VA + VD) * a + 2 * eta * VT) <= 5 * a * (VT * (9 / 8)))%R).
  { apply Rmult_le_compat_l; [lra|exact H3]. }
  assert (H5 : (5 * a * (VT * (9 / 8)) <= VT * (5 * (129 / 128) * (9 / 8)))%R) by nra.
  assert (H6 : ((RA + RB) * VT < 6 * VT)%R) by nra.
  nra.
Qed.

(** ** The three cases of [total] *)

Lemma valid_emin s m e : valid_binary prec emax (S754_finite s m e) = true -> -1074 <= e.
Proof.
  simpl. unfold bounded, canonical_mantissa. intros H.
  apply andb_true_iff in H. destruct H as [H _]. apply Z.eqb_eq in H.
  rewrite fexp_eq in H. lia.
Qed.

Lemma or_zero_nonneg x : nonneg_input x -> nonneg (or_zero x).
Proof.
  destruct x as [[s|s| |[|] m e]|]; simpl; intros H; try contradiction; try (left; reflexivity).
  right. exists m, e. split; [reflexivity|]. exact (valid_emin false m e H).
Qed.

Lemma total_cases A D :
  nonneg A -> nonneg D ->
  ltb (of_Z 0) (add A D) = false \/
  add A D = S754_infinity false \/
  exists mt et, add A D = S754_finite false mt et /\
    (B2R A + B2R D <= B2R (S754_finite false mt et) * (1 + eps))%R.
Proof.
  pose proof eps_small as He.
  intros [->|(ma & ea & -> & Ha)] [->|(md & ed & -> & Hd)].
  - left. reflexivity.
  - right. right. exists md, ed. split; [reflexivity|].
    pose proof (B2R_finite_pos md ed). simpl (B2R (S754_zero false)). nra.
  - right. right. exists ma, ea. split; [reflexivity|].
    pose proof (B2R_finite_pos ma ea). simpl (B2R (S754_zero false)). nra.
  - destruct (SFadd_bound ma ea md ed Ha Hd) as (m & e & E & Hr & Hb).
    unfold add. rewrite E. destruct m as [|p|p].
    + left. reflexivity.
    + unfold pack. destruct (e <=? emax - prec).
      * right. right. exists p, e. split; [reflexivity|exact Hb].
      * right. left. reflexivity.
    + destruct Hr as [[? ?] _]. lia.
Qed.

Lemma box_overflow A :
  nonneg A -> floor (div (div A (S754_infinity false)) threshold) = of_Z 0.
Proof. intros [->|(m & e & -> & _)]; reflexivity. Qed.

Lemma empty_boxes i j :
  0 <= i -> 0 <= j -> i + j <= 5 ->
  sub (sub boxCount (of_Z i)) (of_Z j) = of_Z (5 - i - j).
Proof.
  intros Hi Hj Hs.
  assert (Ci : i = 0 \/ i = 1 \/ i = 2 \/ i = 3 \/ i = 4 \/ i = 5) by lia.
  assert (Cj : j = 0 \/ j = 1 \/ j = 2 \/ j = 3 \/ j = 4 \/ j = 5) by lia.
  destruct Ci as [->|[->|[->|[->|[->| ->]]]]];
  destruct Cj as [->|[->|[->|[->|[->| ->]]]]]; try lia; vm_compute; reflexivity.
Qed.


(** ** A side that makes up the whole change *)

Lemma div_eucl_div_mod a b : Z.div_eucl a b = (a / b, a mod b).
Proof. unfold Z.div, Z.modulo. destruct (Z.div_eucl a b); reflexivity. Qed.

Lemma new_location_0 n : new_location n 0 = loc_Exact.
Proof. unfold new_location. destruct (Z.even n); reflexivity. Qed.

Lemma div_core_self m e :
  SFdiv_core_binary prec emax (Z.pos m) e (Z.pos m) e = (2 ^ 53, -53, loc_Exact).
Proof.
  unfold SFdiv_core_binary. rewrite !Z.sub_diag.
  change (Z.min (fexp 0) 0) with (-53). change (0 - -53) with 53.
  cbv iota. rewrite Z.shiftl_mul_pow2 by lia.
  rewrite div_eucl_div_mod, Z.mul_comm, Z.div_mul, Z.mod_mul by lia.
  rewrite new_location_0. reflexivity.
Qed.

(** [x / x] is exactly [1] for every positive finite [x]. *)
Lemma div_self m e :
  div (S754_finite false m e) (S754_finite false m e) = of_Z 1.
Proof.
  unfold div, SFdiv. rewrite div_core_self. vm_compute. reflexivity.
Qed.

Lemma or_zero_zero_input z : zero_input z -> or_zero z = S754_zero false.
Proof.
  destruct z as [[s|s| |s m e]|]; simpl; intros H; try contradiction; reflexivity.
Qed.

Lemma diffAllocate_all_additions m e z :
  zero_input z ->
  diffAllocate (Some (S754_finite false m e)) z =
    {| additionBoxes := of_Z 5; deletionBoxes := of_Z 0; emptyBoxes := of_Z 0 |}.
Proof.
  intros Hz. unfold diffAllocate. rewrite (or_zero_zero_input z Hz).
  change (or_zero (Some (S754_finite false m e))) with (S754_finite false m e).
  change (add (S754_finite false m e) (S754_zero false)) with (S754_finite false m e).
  change (ltb (of_Z 0) (S754_finite false m e)) with true. cbv iota zeta.
  rewrite div_self.
  change (div (S754_zero false) (S754_finite false m e)) with (S754_zero false).
  vm_compute. reflexivity.
Qed.

Lemma diffAllocate_all_deletions m e z :
  zero_input z ->
  diffAllocate z (Some (S754_finite false m e)) =
    {| additionBoxes := of_Z 0; deletionBoxes := of_Z 5; emptyBoxes := of_Z 0 |}.
Proof.
  intros Hz. unfold diffAllocate. rewrite (or_zero_zero_input z Hz).
  change (or_zero (Some (S754_finite false m e))) with (S754_finite false m e).
  change (add (S754_zero false) (S754_finite false m e)) with (S754_finite false m e).
  change (ltb (of_Z 0) (S754_finite false m e)) with true. cbv iota zeta.
  rewrite div_self.
  change (div (S754_zero false) (S754_finite false m e)) with (S754_zero false).
  vm_compute. reflexivity.
Qed.

(* ===================================================================== *)
(** * The diff-box allocator *)
(* ===================================================================== *)

(** Rounding at work: three additions against two deletions is 60% and
    40%, yet [0.6 / 0.2] rounds to [2.9999999999999996], so additions get
    two boxes and one box stays gray. *)
Example diffAllocate_3_2 :
  diffAllocate (Some (of_Z 3)) (Some (of_Z 2)) =
    {| additionBoxes := of_Z 2; deletionBoxes := of_Z 2; emptyBoxes := of_Z 1 |}.
Proof. vm_compute. reflexivity. Qed.

(** C1.  For all non-negative counts [additions] and [deletions] (an absent
    one counting as 0), the allocator returns three non-negative integers
    [additionBoxes], [deletionBoxes] and [emptyBoxes] whose sum is exactly
    5. *)
Theorem diffAllocate_sum additions deletions :
  nonneg_input additions -> nonneg_input deletions ->
  exists i j k,
    additionBoxes (diffAllocate additions deletions) = of_Z i /\
    deletionBoxes (diffAllocate additions deletions) = of_Z j /\
    emptyBoxes (diffAllocate additions deletions) = of_Z k /\
    0 <= i /\ 0 <= j /\ 0 <= k /\ i + j + k = 5.
Proof.
  intros Ha Hd. apply or_zero_nonneg in Ha, Hd. unfold diffAllocate.
  set (A := or_zero additions) in *. set (D := or_zero deletions) in *.
  destruct (total_cases A D Ha Hd) as [E|[E|(mt & et & E & Hs)]].
  - rewrite E. exists 0, 0, 5. simpl. repeat split; lia.
  - rewrite E. change (ltb (of_Z 0) (S754_infinity false)) with true. cbv iota.
    cbn [additionBoxes deletionBoxes emptyBoxes].
    rewrite !box_overflow by assumption.
    exists 0, 0, 5. repeat split; lia.
  - rewrite E. change (ltb (of_Z 0) (S754_finite false mt et)) with true. cbv iota.
    cbn [additionBoxes deletionBoxes emptyBoxes].
    pose proof (B2R_pos_or_zero A (nonneg_pos_or_zero A Ha)) as HA0.
    pose proof (B2R_pos_or_zero D (nonneg_pos_or_zero D Hd)) as HD0.
    pose proof (B2R_finite_pos mt et) as HT.
    destruct (box_bound A mt et (nonneg_pos_or_zero A Ha) ltac:(lra))
      as (m1 & e1 & E1 & R1 & B1).
    destruct (box_bound D mt et (nonneg_pos_or_zero D Hd) ltac:(lra))
      as (m2 & e2 & E2 & R2 & B2).
    pose proof (boxes_sum_lt _ _ _ _ _ HT HA0 HD0 Hs B1 B2) as Hsum.
    assert (H10 : (0 <= F2R m1 e1)%R)
      by (apply F2R_nonneg; destruct R1 as [[? ?] _]; lia).
    assert (H20 : (0 <= F2R m2 e2)%R)
      by (apply F2R_nonneg; destruct R2 as [[? ?] _]; lia).
    destruct (floor_pack m1 e1 R1 ltac:(lra)) as (i & Hi & Fi & Vi).
    destruct (floor_pack m2 e2 R2 ltac:(lra)) as (j & Hj & Fj & Vj).
    rewrite E1, E2, Fi, Fj.
    assert (Hij : i + j <= 5).
    { assert (IZR (i + j) < 6)%R by (rewrite plus_IZR; lra). apply lt_IZR in H. lia. }
    exists i, j, (5 - i - j). rewrite empty_boxes by lia.
    repeat split; lia.
Qed.

Lemma diffAllocate_sum_witness :
  nonneg_input (Some (of_Z 3)) /\ nonneg_input None /\
  exists i j k,
    additionBoxes (diffAllocate (Some (of_Z 3)) None) = of_Z i /\
    deletionBoxes (diffAllocate (Some (of_Z 3)) None) = of_Z j /\
    emptyBoxes (diffAllocate (Some (of_Z 3)) None) = of_Z k /\
    0 <= i /\ 0 <= j /\ 0 <= k /\ i + j + k = 5.
Proof.
  split; [vm_compute; reflexivity|]. split; [exact I|].
  apply diffAllocate_sum; [vm_compute; reflexivity|exact I].
Defined.

(** C3, as stated, fails: with [additions = 39] and [deletions = 0] the
    additions are the whole change and take all five boxes, not one. *)
Lemma diffAllocate_39_0_counterexample :
  ~ (additionBoxes (diffAllocate (Some (of_Z 39)) (Some (of_Z 0))) = of_Z 1 /\
     additionBoxes (diffAllocate (Some (of_Z 40)) (Some (of_Z 0))) = of_Z 2).
Proof. intros [H _]. vm_compute in H. discriminate H. Qed.

(** C3, amended.  39 additions out of a total of 100 (61 deletions) claim
    one box, and 40 out of 100 (60 deletions) claim two. *)
Theorem diffAllocate_39_40_percent :
  additionBoxes (diffAllocate (Some (of_Z 39)) (Some (of_Z 61))) = of_Z 1 /\
  additionBoxes (diffAllocate (Some (of_Z 40)) (Some (of_Z 60))) = of_Z 2.
Proof. vm_compute. split; reflexivity. Qed.

(** C4.  The claim (and the comment at the head of [DiffStat]) promises a
    gray box whenever neither side is the whole change.  At one addition
    against four deletions the code gives one green and four red boxes
    and no gray one. *)
Theorem diffAllocate_1_4_no_gray_box :
  diffAllocate (Some (of_Z 1)) (Some (of_Z 4)) =
    {| additionBoxes := of_Z 1; deletionBoxes := of_Z 4; emptyBoxes := of_Z 0 |}.
Proof. vm_compute. reflexivity. Qed.

Lemma diffAllocate_defaults additions deletions :
  eqb (add (or_zero additions) (or_zero deletions)) (of_Z 0) = true ->
  diffAllocate additions deletions =
    {| additionBoxes := of_Z 0; deletionBoxes := of_Z 0; emptyBoxes := of_Z 5 |}.
Proof.
  intros H. unfold diffAllocate.
  destruct (add (or_zero additions) (or_zero deletions)) as [s|s| |s m e];
    try destruct s; try discriminate H; reflexivity.
Qed.

(** C5.  When [additions + deletions] is zero the allocator takes the
    branch that leaves the defaults in place and returns 0, 0 and 5; this
    is no error path: [DiffStat] then renders five gray boxes. *)
Theorem diffAllocate_zero_total
    (classNames : list string -> string) (additions deletions : option number) :
  eqb (add (or_zero additions) (or_zero deletions)) (of_Z 0) = true ->
  diffAllocate additions deletions =
    {| additionBoxes := of_Z 0; deletionBoxes := of_Z 0; emptyBoxes := of_Z 5 |} /\
  DiffStat classNames additions deletions =
    Ok (NElem (Tag "div")
          (Some "hidden flex-shrink-0 flex-nowrap items-center gap-2 lg:flex") []
          [NElem (Tag "span") (Some "text-green-400") []
             [NText "+"; number_child additions];
           NElem (Tag "span") (Some "text-red-400") []
             [NText "-"; number_child deletions];
           NElem (Tag "span") None []
             [NFragment []; NFragment [];
              NArray (map (diffBox classNames "divide-gray-300 bg-gray-200")
                          (seq 0 5))]]).
Proof.
  intros H. pose proof (diffAllocate_defaults additions deletions H) as E.
  split; [exact E|]. unfold DiffStat. rewrite E. reflexivity.
Qed.

Lemma diffAllocate_zero_total_witness :
  eqb (add (or_zero None) (or_zero None)) (of_Z 0) = true /\
  diffAllocate None None =
    {| additionBoxes := of_Z 0; deletionBoxes := of_Z 0; emptyBoxes := of_Z 5 |}.
Proof.
  split; [reflexivity|].
  exact (proj1 (diffAllocate_zero_total (fun _ => EmptyString) None None eq_refl)).
Defined.

(** C6.  A side that is the whole change claims all five boxes: for every
    positive finite count on one side and zero (or nothing) on the other,
    the boxes are 5, 0, 0, respectively 0, 5, 0. *)
Theorem diffAllocate_whole_change m e z :
  zero_input z ->
  diffAllocate (Some (S754_finite false m e)) z =
    {| additionBoxes := of_Z 5; deletionBoxes := of_Z 0; emptyBoxes := of_Z 0 |} /\
  diffAllocate z (Some (S754_finite false m e)) =
    {| additionBoxes := of_Z 0; deletionBoxes := of_Z 5; emptyBoxes := of_Z 0 |}.
Proof.
  intros Hz. split.
  - apply diffAllocate_all_additions. exact Hz.
  - apply diffAllocate_all_deletions. exact Hz.
Qed.

Lemma diffAllocate_whole_change_witness :
  zero_input (Some (of_Z 0)) /\
  diffAllocate (Some (of_Z 100)) (Some (of_Z 0)) =
    {| additionBoxes := of_Z 5; deletionBoxes := of_Z 0; emptyBoxes := of_Z 0 |}.
Proof.
  split; [exact I|].
  exact (proj1 (diffAllocate_whole_change 7036874417766400 (-46) (Some (of_Z 0)) I)).
Defined.

(* ===================================================================== *)
(** * Issue references *)
(* ===================================================================== *)

Section ReferenceFacts.

Variable githubPullReqeustUrl : string -> string -> number -> string.
Variable classNames : list string -> string.
Variables PULL_REQUEST EXTERNAL_GITHUB_COMMIT EXTERNAL_GITHUB_PULL_REQUEST : string.
Variable Payload : Type.
Variable asPullRequestReference : Payload -> option PullRequestReference.t.
Variable asExternalGitHubCommitReference :
  Payload -> option ExternalGitHubCommitReference.t.
Variable asExternalGitHubPullRequestReference :
  Payload -> option ExternalGitHubPullRequestReference.t.

Local Abbreviation render :=
  (IssueReference githubPullReqeustUrl classNames
     PULL_REQUEST EXTERNAL_GITHUB_COMMIT EXTERNAL_GITHUB_PULL_REQUEST
     Payload asPullRequestReference asExternalGitHubCommitReference
     asExternalGitHubPullRequestReference).

(** C9.  A commit reference without a branch name shows one link, the
    first six characters of the sha pointing at the commit; with a branch
    name it shows the branch link instead; and rendering it through
    [IssueReference] returns a tree, it does not throw. *)
Theorem commit_reference_fallback
    (orgName repoName : string) (commit : ExternalGitHubCommitReference.t) :
  (ExternalGitHubCommitReference.branch_name commit = None ->
   anchors (IssueReferenceExternalGitHubCommit orgName (Some commit)) =
     [NElem (Tag "a") (Some "font-mono text-gray-500")
        [("href",
          PStr (("https://github.com/"
                   ++ ExternalGitHubCommitReference.organization_name commit
                   ++ "/" ++ ExternalGitHubCommitReference.repository_name commit)
                  ++ "/commit/" ++ ExternalGitHubCommitReference.sha commit))]
        [NText (String.substring 0 6 (ExternalGitHubCommitReference.sha commit))]]) /\
  (forall branch,
     ExternalGitHubCommitReference.branch_name commit = Some branch ->
     branch <> EmptyString ->
     anchors (IssueReferenceExternalGitHubCommit orgName (Some commit)) =
       [branchLink orgName commit branch]) /\
  (forall reference,
     type reference = EXTERNAL_GITHUB_COMMIT ->
     EXTERNAL_GITHUB_COMMIT <> PULL_REQUEST ->
     asExternalGitHubCommitReference (payload reference) = Some commit ->
     render orgName repoName (Some reference) =
       Ok (Box [IssueReferenceExternalGitHubCommit orgName (Some commit)])).
Proof.
  split; [|split].
  - intros Hb. unfold IssueReferenceExternalGitHubCommit. rewrite Hb. reflexivity.
  - intros branch Hb Hne. unfold IssueReferenceExternalGitHubCommit. rewrite Hb.
    destruct branch as [|c branch]; [congruence|reflexivity].
  - intros reference Ht Hne Hp. unfold IssueReference. rewrite Ht, Hp.
    apply String.eqb_neq in Hne. rewrite Hne, String.eqb_refl. reflexivity.
Qed.

(** C10.  A reference that is null, or whose type is none of
    [PULL_REQUEST], [EXTERNAL_GITHUB_COMMIT] and
    [EXTERNAL_GITHUB_PULL_REQUEST], renders the empty fragment: nothing is
    thrown and no box is drawn. *)
Theorem IssueReference_other_type
    (orgName repoName : string) (reference : option (IssueReferenceRead Payload)) :
  match reference with
  | None => True
  | Some r =>
      type r <> PULL_REQUEST /\
      type r <> EXTERNAL_GITHUB_COMMIT /\
      type r <> EXTERNAL_GITHUB_PULL_REQUEST
  end ->
  render orgName repoName reference = Ok (NFragment []).
Proof.
  unfold IssueReference. destruct reference as [r|]; [|reflexivity].
  intros (H1 & H2 & H3).
  apply String.eqb_neq in H1, H2, H3. rewrite H1, H2, H3. reflexivity.
Qed.

End ReferenceFacts.

Lemma commit_reference_fallback_witness :
  let commit :=
    {| ExternalGitHubCommitReference.organization_name := "polarsource";
       ExternalGitHubCommitReference.repository_name := "polar";
       ExternalGitHubCommitReference.sha := "0a1b2c3d4e5f6789";
       ExternalGitHubCommitReference.branch_name := None;
       ExternalGitHubCommitReference.author_avatar := "https://example.com/a.png" |} in
  let on_branch :=
    {| ExternalGitHubCommitReference.organization_name := "polarsource";
       ExternalGitHubCommitReference.repository_name := "polar";
       ExternalGitHubCommitReference.sha := "0a1b2c3d4e5f6789";
       ExternalGitHubCommitReference.branch_name := Some "main";
       ExternalGitHubCommitReference.author_avatar := "https://example.com/a.png" |} in
  ExternalGitHubCommitReference.branch_name commit = None /\
  anchors (IssueReferenceExternalGitHubCommit "polarsource" (Some commit)) =
    [NElem (Tag "a") (Some "font-mono text-gray-500")
       [("href", PStr "https://github.com/polarsource/polar/commit/0a1b2c3d4e5f6789")]
       [NText "0a1b2c"]] /\
  anchors (IssueReferenceExternalGitHubCommit "polarsource" (Some on_branch)) =
    [NElem (Tag "a") (Some "font-mono")
       [("href", PStr "https://github.com/polarsource/polar/tree/main")]
       [NFalse; NText "main"]].
Proof.
  intros commit on_branch. split; [reflexivity|]. split.
  - exact (proj1 (commit_reference_fallback
                    (fun _ _ _ => EmptyString) (fun _ => EmptyString)
                    "pull_request" "external_github_commit"
                    "external_github_pull_request"
                    unit (fun _ => None) (fun _ => None) (fun _ => None)
                    "polarsource" "polar" commit) eq_refl).
  - refine (proj1 (proj2 (commit_reference_fallback
                    (fun _ _ _ => EmptyString) (fun _ => EmptyString)
                    "pull_request" "external_github_commit"
                    "external_github_pull_request"
                    unit (fun _ => None) (fun _ => None) (fun _ => None)
                    "polarsource" "polar" on_branch)) "main" eq_refl _).
    discriminate.
Defined.

Lemma IssueReference_other_type_witness :
  let reference := {| reference_id := "1"; type := "issue"; payload := tt |} in
  (type reference <> "pull_request" /\
   type reference <> "external_github_commit" /\
   type reference <> "external_github_pull_request") /\
  IssueReference (fun _ _ _ => EmptyString) (fun _ => EmptyString)
    "pull_request" "external_github_commit" "external_github_pull_request"
    unit (fun _ => None) (fun _ => None) (fun _ => None)
    "polarsource" "polar" (Some reference) = Ok (NFragment []).
Proof.
  intros reference.
  assert (H : type reference <> "pull_request" /\
              type reference <> "external_github_commit" /\
              type reference <> "external_github_pull_request")
    by (repeat split; discriminate).
  split; [exact H|].
  exact (IssueReference_other_type
           (fun _ _ _ => EmptyString) (fun _ => EmptyString)
           "pull_request" "external_github_commit" "external_github_pull_request"
           unit (fun _ => None) (fun _ => None) (fun _ => None)
           "polarsource" "polar" (Some reference) H).
Defined.

(* ===================================================================== *)
(** * The e-mail override table *)
(* ===================================================================== *)

(** A class name ['lang-x'] names the language ['x']. *)
Lemma language_of_lang l : language_of (Some ("lang-" ++ l)) = Some l.
Proof. destruct l; reflexivity. Qed.

(** C7.  The function registered for [SubscribeNow] in the e-mail override
    table returns the empty fragment for every input. *)
Theorem SubscribeNow_renders_nothing (markdownOpts_overrides : gmap string Override) :
  exists f,
    opts_overrides markdownOpts_overrides !! "SubscribeNow" = Some f /\
    forall args, f args = Ok (NFragment []).
Proof.
  exists SubscribeNow. split; [|reflexivity].
  unfold opts_overrides. by simplify_map_eq.
Qed.




(* ===================================================================== *)
(** * The paywall cut-off *)
(* ===================================================================== *)

Section PaywallFacts.

Import Paywall.

Variable marker : string.
Variable parse : string -> list SourceNode.

Lemma rendered_nodes_construct cut emitted nodes :
  rendered_nodes (construct cut emitted nodes) =
  map node (List.filter (fun n => negb (after cut n)) nodes).
Proof.
  revert emitted. induction nodes as [|n rest IH]; intros emitted; simpl.
  - reflexivity.
  - unfold after at 1. destruct (cut <? position n)%nat; simpl.
    + destruct emitted; simpl; apply IH.
    + f_equal. apply IH.
Qed.

Lemma prompts_construct_emitted cut nodes :
  prompts (construct cut true nodes) = 0%nat.
Proof.
  unfold prompts. induction nodes as [|n rest IH]; simpl.
  - reflexivity.
  - destruct (cut <? position n)%nat; simpl; exact IH.
Qed.

Lemma prompts_construct cut nodes :
  prompts (construct cut false nodes) =
  if existsb (after cut) nodes then 1%nat else 0%nat.
Proof.
  induction nodes as [|n rest IH]; simpl.
  - reflexivity.
  - unfold after at 1. destruct (cut <? position n)%nat; simpl.
    + unfold prompts. simpl. f_equal. apply prompts_construct_emitted.
    + exact IH.
Qed.

(** Once the prompt is out, the pass only lets the nodes before the
    cut-off through. *)
Lemma construct_emitted cut nodes :
  construct cut true nodes =
  map shown (List.filter (fun n => negb (after cut n)) nodes).
Proof.
  induction nodes as [|n rest IH]; simpl; [reflexivity|].
  unfold after at 1. destruct (cut <? position n)%nat; simpl.
  - exact IH.
  - f_equal. exact IH.
Qed.

(** Up to the first node after the cut-off nothing changes. *)
Lemma construct_before cut emitted before rest :
  Forall (fun n => after cut n = false) before ->
  construct cut emitted (before ++ rest) =
  (map shown before ++ construct cut emitted rest)%list.
Proof.
  induction 1 as [|n before Hn _ IH]; simpl; [reflexivity|].
  unfold after in Hn. rewrite Hn. f_equal. exact IH.
Qed.

Lemma construct_in_place cut before n rest :
  Forall (fun x => after cut x = false) before ->
  after cut n = true ->
  construct cut false (before ++ n :: rest) =
  (map shown before
     ++ PaywallPrompt
     :: map shown (List.filter (fun x => negb (after cut x)) rest))%list.
Proof.
  intros Hb Hn. rewrite construct_before by assumption. f_equal.
  simpl. unfold after in Hn. rewrite Hn. f_equal. apply construct_emitted.
Qed.

Lemma construct_none_after cut emitted nodes :
  existsb (after cut) nodes = false ->
  construct cut emitted nodes = map shown nodes.
Proof.
  revert emitted. induction nodes as [|n rest IH]; intros emitted H; simpl in *.
  - reflexivity.
  - apply orb_false_iff in H. destruct H as [Hn Hrest].
    unfold after in Hn. rewrite Hn. unfold shown at 1. f_equal.
    apply IH. exact Hrest.
Qed.

(** In source order the nodes after the cut-off are the tail of the
    document. *)
Lemma sorted_after_tail cut n rest :
  in_source_order (n :: rest) -> after cut n = true ->
  List.filter (fun x => negb (after cut x)) rest = [].
Proof.
  unfold in_source_order. intros Hs Hn.
  apply StronglySorted_inv in Hs. destruct Hs as [_ Hall].
  induction rest as [|x rest IH]; [reflexivity|].
  inversion Hall as [|? ? Hx Hrest]; subst. simpl.
  assert (Hax : after cut x = true).
  { unfold after in *. apply Nat.ltb_lt in Hn. apply Nat.ltb_lt. lia. }
  rewrite Hax. simpl. apply IH. exact Hrest.
Qed.

Lemma construct_sorted cut nodes :
  in_source_order nodes ->
  construct cut false nodes =
  (map shown (List.filter (fun n => negb (after cut n)) nodes)
     ++ (if existsb (after cut) nodes then [PaywallPrompt] else []))%list.
Proof.
  induction nodes as [|n rest IH]; intros Hs; [reflexivity|].
  destruct (after cut n) eqn:Hn.
  - change (n :: rest) with ([] ++ n :: rest)%list at 1.
    rewrite (construct_in_place cut [] n rest (List.Forall_nil _) Hn).
    simpl. rewrite Hn. simpl.
    rewrite (sorted_after_tail cut n rest Hs Hn). reflexivity.
  - simpl. rewrite Hn. simpl. unfold after in Hn. rewrite Hn. simpl. f_equal.
    apply IH. unfold in_source_order in *.
    apply StronglySorted_inv in Hs. tauto.
Qed.

(** C2.  When the body contains the paywall marker and
    [showPaywalledContent] is false, as in [EmailRender], the nodes
    positioned after the marker are replaced in place by exactly one
    paywall prompt: the output is the nodes up to the first one after the
    marker, rendered unchanged, then the prompt where that node stood,
    and no node after the marker is rendered and no second prompt is
    produced.  For a document in source order the output is therefore
    the nodes before the marker followed by the single prompt. *)
Theorem paywall_single_prompt (article : RenderArticle) (cut : nat) :
  String.index 0 marker (body article) = Some cut ->
  let nodes := parse (body article) in
  let out := EmailRender marker parse article in
  out = render marker parse article false /\
  (forall before n rest,
      nodes = (before ++ n :: rest)%list ->
      Forall (fun x => after cut x = false) before ->
      after cut n = true ->
      out = (map shown before
               ++ PaywallPrompt
               :: map shown (List.filter (fun x => negb (after cut x)) rest))%list) /\
  (existsb (after cut) nodes = false -> out = map shown nodes) /\
  (in_source_order nodes ->
   out = (map shown (List.filter (fun n => negb (after cut n)) nodes)
            ++ (if existsb (after cut) nodes then [PaywallPrompt] else []))%list) /\
  prompts out = (if existsb (after cut) nodes then 1%nat else 0%nat) /\
  rendered_nodes out = map node (List.filter (fun n => negb (after cut n)) nodes).
Proof.
  intros Hm nodes out. unfold out, EmailRender, render, cutoff. rewrite Hm.
  fold nodes. split; [reflexivity|]. split; [|split; [|split; [|split]]].
  - intros before n rest -> Hb Hn. apply construct_in_place; assumption.
  - apply construct_none_after.
  - apply construct_sorted.
  - apply prompts_construct.
  - apply rendered_nodes_construct.
Qed.

End PaywallFacts.

Lemma paywall_single_prompt_witness :
  let article :=
    {| Paywall.body := "Hello<!--paywall-->secret one, secret two";
       Paywall.byline := "author";
       Paywall.organization := "polarsource";
       Paywall.published_at := None |} in
  let parse := fun _ : string =>
    [ {| Paywall.position := 0; Paywall.node := NText "Hello" |};
      {| Paywall.position := 18; Paywall.node := NText "secret one" |};
      {| Paywall.position := 30; Paywall.node := NText "secret two" |} ] in
  String.index 0 "<!--paywall-->" (Paywall.body article) = Some 5%nat /\
  Paywall.in_source_order (parse (Paywall.body article)) /\
  Paywall.EmailRender "<!--paywall-->" parse article =
    [Paywall.Rendered (NText "Hello"); Paywall.PaywallPrompt].
Proof.
  intros article parse.
  assert (Hs : Paywall.in_source_order (parse (Paywall.body article))).
  { unfold Paywall.in_source_order. repeat constructor; simpl; lia. }
  split; [reflexivity|]. split; [exact Hs|].
  exact (proj1 (proj2 (proj2 (proj2
           (paywall_single_prompt "<!--paywall-->" parse article 5 eq_refl)))) Hs).
Defined.

(* ===================================================================== *)
(** * Further properties: the diff-stat boxes as drawn *)
(* ===================================================================== *)

(** The allocation for non-negative counts, as one record. *)
Lemma diffAllocate_shape additions deletions :
  nonneg_input additions -> nonneg_input deletions ->
  exists i j,
    0 <= i /\ 0 <= j /\ i + j <= 5 /\
    diffAllocate additions deletions =
      {| additionBoxes := of_Z i; deletionBoxes := of_Z j;
         emptyBoxes := of_Z (5 - i - j) |}.
Proof.
  intros Ha Hd. apply or_zero_nonneg in Ha, Hd. unfold diffAllocate.
  set (A := or_zero additions) in *. set (D := or_zero deletions) in *.
  destruct (total_cases A D Ha Hd) as [E|[E|(mt & et & E & Hs)]].
  - rewrite E. exists 0, 0. repeat split; try lia.
  - rewrite E. change (ltb (of_Z 0) (S754_infinity false)) with true. cbv iota zeta.
    rewrite !box_overflow by assumption.
    exists 0, 0. repeat split; try lia.
  - rewrite E. change (ltb (of_Z 0) (S754_finite false mt et)) with true.
    cbv iota zeta.
    pose proof (B2R_pos_or_zero A (nonneg_pos_or_zero A Ha)) as HA0.
    pose proof (B2R_pos_or_zero D (nonneg_pos_or_zero D Hd)) as HD0.
    pose proof (B2R_finite_pos mt et) as HT.
    destruct (box_bound A mt et (nonneg_pos_or_zero A Ha) ltac:(lra))
      as (m1 & e1 & E1 & R1 & B1).
    destruct (box_bound D mt et (nonneg_pos_or_zero D Hd) ltac:(lra))
      as (m2 & e2 & E2 & R2 & B2).
    pose proof (boxes_sum_lt _ _ _ _ _ HT HA0 HD0 Hs B1 B2) as Hsum.
    assert (H10 : (0 <= F2R m1 e1)%R)
      by (apply F2R_nonneg; destruct R1 as [[? ?] _]; lia).
    assert (H20 : (0 <= F2R m2 e2)%R)
      by (apply F2R_nonneg; destruct R2 as [[? ?] _]; lia).
    destruct (floor_pack m1 e1 R1 ltac:(lra)) as (i & Hi & Fi & Vi).
    destruct (floor_pack m2 e2 R2 ltac:(lra)) as (j & Hj & Fj & Vj).
    rewrite E1, E2, Fi, Fj.
    assert (Hij : i + j <= 5).
    { assert (IZR (i + j) < 6)%R by (rewrite plus_IZR; lra). apply lt_IZR in H. lia. }
    exists i, j. rewrite empty_boxes by lia. repeat split; lia.
Qed.

Lemma small_cases k :
  0 <= k <= 5 -> k = 0 \/ k = 1 \/ k = 2 \/ k = 3 \/ k = 4 \/ k = 5.
Proof. lia. Qed.

Lemma generateDiffBox_small classNames className k :
  0 <= k <= 5 ->
  generateDiffBox classNames className (of_Z k) =
    Ok (diffBoxes classNames className (Z.to_nat k)).
Proof.
  intros Hk.
  destruct (small_cases k Hk) as [->|[->|[->|[->|[->| ->]]]]]; reflexivity.
Qed.

(** The tree [DiffStat] returns for non-negative counts. *)
Lemma DiffStat_render
    (classNames : list string -> string) (additions deletions : option number) :
  nonneg_input additions -> nonneg_input deletions ->
  exists i j,
    0 <= i /\ 0 <= j /\ i + j <= 5 /\
    diffAllocate additions deletions =
      {| additionBoxes := of_Z i; deletionBoxes := of_Z j;
         emptyBoxes := of_Z (5 - i - j) |} /\
    DiffStat classNames additions deletions =
      Ok (NElem (Tag "div")
            (Some "hidden flex-shrink-0 flex-nowrap items-center gap-2 lg:flex") []
            [NElem (Tag "span") (Some "text-green-400") []
               [NText "+"; number_child additions];
             NElem (Tag "span") (Some "text-red-400") []
               [NText "-"; number_child deletions];
             NElem (Tag "span") None []
               [diffBoxes classNames "divide-green-300 bg-green-200" (Z.to_nat i);
                diffBoxes classNames "divide-red-300 bg-red-200" (Z.to_nat j);
                diffBoxes classNames "divide-gray-300 bg-gray-200"
                  (Z.to_nat (5 - i - j))]]).
Proof.
  intros Ha Hd.
  destruct (diffAllocate_shape additions deletions Ha Hd) as (i & j & Hi & Hj & Hij & E).
  exists i, j. repeat (split; [assumption|]).
  unfold DiffStat. rewrite E. cbn [additionBoxes deletionBoxes emptyBoxes].
  rewrite !generateDiffBox_small by lia. reflexivity.
Qed.

(** X1.  For non-negative counts [DiffStat] does not throw, and it draws
    exactly five boxes: the green ones, then the red ones, then the gray
    ones, as many of each as [diffAllocate] counts. *)
Theorem DiffStat_five_boxes
    (classNames : list string -> string) (additions deletions : option number) :
  nonneg_input additions -> nonneg_input deletions ->
  exists i j k : nat,
    (i + j + k = 5)%nat /\
    diffAllocate additions deletions =
      {| additionBoxes := of_Z (Z.of_nat i);
         deletionBoxes := of_Z (Z.of_nat j);
         emptyBoxes := of_Z (Z.of_nat k) |} /\
    DiffStat classNames additions deletions =
      Ok (NElem (Tag "div")
            (Some "hidden flex-shrink-0 flex-nowrap items-center gap-2 lg:flex") []
            [NElem (Tag "span") (Some "text-green-400") []
               [NText "+"; number_child additions];
             NElem (Tag "span") (Some "text-red-400") []
               [NText "-"; number_child deletions];
             NElem (Tag "span") None []
               [diffBoxes classNames "divide-green-300 bg-green-200" i;
                diffBoxes classNames "divide-red-300 bg-red-200" j;
                diffBoxes classNames "divide-gray-300 bg-gray-200" k]]).
Proof.
  intros Ha Hd.
  destruct (DiffStat_render classNames additions deletions Ha Hd)
    as (i & j & Hi & Hj & Hij & E & R).
  exists (Z.to_nat i), (Z.to_nat j), (Z.to_nat (5 - i - j)).
  split; [lia|]. rewrite !Z2Nat.id by lia. split; [exact E|exact R].
Qed.

Lemma DiffStat_five_boxes_witness :
  nonneg_input (Some (of_Z 3)) /\ nonneg_input (Some (of_Z 2)) /\
  exists i j k : nat,
    (i + j + k = 5)%nat /\
    diffAllocate (Some (of_Z 3)) (Some (of_Z 2)) =
      {| additionBoxes := of_Z (Z.of_nat i);
         deletionBoxes := of_Z (Z.of_nat j);
         emptyBoxes := of_Z (Z.of_nat k) |} /\
    DiffStat (fun _ => EmptyString) (Some (of_Z 3)) (Some (of_Z 2)) =
      Ok (NElem (Tag "div")
            (Some "hidden flex-shrink-0 flex-nowrap items-center gap-2 lg:flex") []
            [NElem (Tag "span") (Some "text-green-400") []
               [NText "+"; number_child (Some (of_Z 3))];
             NElem (Tag "span") (Some "text-red-400") []
               [NText "-"; number_child (Some (of_Z 2))];
             NElem (Tag "span") None []
               [diffBoxes (fun _ => EmptyString) "divide-green-300 bg-green-200" i;
                diffBoxes (fun _ => EmptyString) "divide-red-300 bg-red-200" j;
                diffBoxes (fun _ => EmptyString) "divide-gray-300 bg-gray-200" k]]).
Proof.
  assert (H3 : nonneg_input (Some (of_Z 3))) by (vm_compute; reflexivity).
  assert (H2 : nonneg_input (Some (of_Z 2))) by (vm_compute; reflexivity).
  split; [exact H3|]. split; [exact H2|].
  exact (DiffStat_five_boxes (fun _ => EmptyString) _ _ H3 H2).
Defined.

(** ** Integers held in a number *)

Lemma binary_round_shape s p e :
  exists m e',
    binary_round prec emax s p e = pack s m e' /\ rounded m e'.
Proof.
  unfold binary_round.
  set (f := fexp (Z.pos (digits2_pos p) + e)).
  destruct (shl_align_spec p e f) as [B1 B2].
  destruct (shl_align p e f) as [mz ez]. cbn [fst snd] in B1, B2.
  assert (Hn : ez <= fexp (Zdigits2 (Z.pos mz) + ez)).
  { rewrite B2, Zdigits2_shift by lia.
    replace (Zdigits2 (Z.pos p) + (e - Z.min e f) + ez) with
      (Z.pos (digits2_pos p) + e) by (simpl Zdigits2; lia).
    fold f. lia. }
  destruct (round_bounds s (Z.pos mz) ez loc_Exact ltac:(lia) Hn)
    as (m & e' & E & Hr & _).
  exists m, e'. split; [exact E|exact Hr].
Qed.

(** An integer below [2^53] is held exactly. *)
Lemma of_Z_exact n :
  0 < n < 2 ^ 53 ->
  exists q,
    of_Z n = S754_finite false q (Zdigits2 n - 53) /\
    Z.pos q = n * 2 ^ (53 - Zdigits2 n).
Proof.
  intros [Hpos Hlt]. destruct n as [|p|p]; try lia.
  unfold of_Z, binary_normalize, binary_round.
  pose proof (Zdigits2_le (Z.pos p) 53 ltac:(lia) ltac:(lia) Hlt) as Hd.
  assert (Hd0 : 0 < Zdigits2 (Z.pos p)) by (simpl; lia).
  set (f := fexp (Z.pos (digits2_pos p) + 0)).
  assert (Hf : f = Zdigits2 (Z.pos p) - 53).
  { unfold f. rewrite fexp_eq. simpl Zdigits2 in *. lia. }
  destruct (shl_align_spec p 0 f) as [B1 B2].
  destruct (shl_align p 0 f) as [mz ez]. cbn [fst snd] in B1, B2.
  assert (Hez : ez = f) by lia.
  replace (0 - Z.min 0 f) with (53 - Zdigits2 (Z.pos p)) in B2 by lia.
  assert (Hdig : Zdigits2 (Z.pos mz) + ez = Zdigits2 (Z.pos p)).
  { rewrite B2, Zdigits2_shift by lia. lia. }
  assert (Hfe : fexp (Zdigits2 (Z.pos mz) + ez) = ez).
  { rewrite Hdig, fexp_eq. lia. }
  destruct (binary_round_aux_spec false (Z.pos mz) ez loc_Exact ltac:(lia) ltac:(lia))
    as (m & e & E & _ & _ & _ & _ & Hx).
  destruct (Hx eq_refl Hfe) as [-> ->].
  exists mz. rewrite E. unfold pack.
  replace (ez <=? emax - prec) with true
    by (symmetry; apply Z.leb_le; unfold emax, prec; lia).
  split; [f_equal; lia|exact B2].
Qed.

Lemma array_length_of_Z n :
  0 < n < 2 ^ 32 -> array_length (of_Z n) = Some (Z.to_nat n).
Proof.
  intros [Hpos Hlt].
  assert (H53 : n < 2 ^ 53) by (eapply Z.lt_trans; [exact Hlt|reflexivity]).
  pose proof (Zdigits2_le n 32 ltac:(lia) ltac:(lia) Hlt) as Hd.
  destruct (of_Z_exact n ltac:(lia)) as (q & E & Hq).
  rewrite E. unfold array_length.
  replace (0 <=? Zdigits2 n - 53) with false by (symmetry; apply Z.leb_gt; lia).
  replace (- (Zdigits2 n - 53)) with (53 - Zdigits2 n) by lia.
  assert (Hp : 0 < 2 ^ (53 - Zdigits2 n)) by (apply Z.pow_pos_nonneg; lia).
  rewrite Hq, Z.mod_mul, Z.div_mul by lia.
  rewrite Z.eqb_refl.
  replace (n <? 2 ^ 32) with true by (symmetry; apply Z.ltb_lt; lia).
  reflexivity.
Qed.

Lemma of_Z_nonpos_leb n : n <= 0 -> leb (of_Z n) (of_Z 0) = true.
Proof.
  intros Hn. destruct n as [|p|p]; try lia; [reflexivity|].
  unfold of_Z, binary_normalize.
  destruct (binary_round_shape true p 0) as (m & e & E & (Hm & _)).
  rewrite E. unfold pack. destruct m as [|q|q]; try lia; [reflexivity|].
  destruct (e <=? emax - prec); reflexivity.
Qed.

(** X2.  [generateDiffBox] draws one span per box: for every integer [n]
    below [2^32] it returns [n] spans keyed [0 .. n-1], and the empty
    fragment when [n] is zero or negative. *)
Theorem generateDiffBox_count
    (classNames : list string -> string) (className : string) (n : Z) :
  n < 2 ^ 32 ->
  generateDiffBox classNames className (of_Z n) =
    Ok (diffBoxes classNames className (Z.to_nat n)).
Proof.
  intros Hn. unfold generateDiffBox.
  destruct (Z_le_gt_dec n 0) as [Hle|Hgt].
  - rewrite of_Z_nonpos_leb by assumption.
    replace (Z.to_nat n) with 0%nat by lia. reflexivity.
  - rewrite array_length_of_Z by lia.
    destruct (of_Z_exact n) as (q & E & _).
    { split; [lia|]. eapply Z.lt_trans; [exact Hn|reflexivity]. }
    rewrite E. change (leb (S754_finite false q (Zdigits2 n - 53)) (of_Z 0)) with false.
    cbv iota. unfold diffBoxes.
    destruct (Z.to_nat n) eqn:En; [lia|reflexivity].
Qed.

Lemma generateDiffBox_count_witness :
  7 < 2 ^ 32 /\
  generateDiffBox (fun _ => EmptyString) "bg-gray-200" (of_Z 7) =
    Ok (diffBoxes (fun _ => EmptyString) "bg-gray-200" 7).
Proof.
  split; [reflexivity|].
  exact (generateDiffBox_count (fun _ => EmptyString) "bg-gray-200" 7 eq_refl).
Defined.

(** ** Counts that are not finite *)

Lemma add_infinity_l D : nonneg D -> add (S754_infinity false) D = S754_infinity false.
Proof. intros [->|(m & e & -> & _)]; reflexivity. Qed.

(** X3.  [NaN] is absorbed by [|| 0] and counts as zero, but an infinite
    count is not guarded against: [Infinity / Infinity] is [NaN], the
    floor of it reaches [Array] and [DiffStat] throws a RangeError. *)
Theorem DiffStat_infinite_additions
    (classNames : list string -> string) (deletions : option number) :
  nonneg_input deletions ->
  diffAllocate (Some S754_nan) deletions = diffAllocate None deletions /\
  DiffStat classNames (Some (S754_infinity false)) deletions = Throw RangeError.
Proof.
  intros Hd. split; [reflexivity|].
  apply or_zero_nonneg in Hd. unfold DiffStat, diffAllocate.
  change (or_zero (Some (S754_infinity false))) with (S754_infinity false).
  rewrite (add_infinity_l _ Hd). reflexivity.
Qed.

Lemma DiffStat_infinite_additions_witness :
  nonneg_input (Some (of_Z 4)) /\
  DiffStat (fun _ => EmptyString) (Some (S754_infinity false)) (Some (of_Z 4)) =
    Throw RangeError.
Proof.
  assert (H : nonneg_input (Some (of_Z 4))) by (vm_compute; reflexivity).
  split; [exact H|].
  exact (proj2 (DiffStat_infinite_additions (fun _ => EmptyString) (Some (of_Z 4)) H)).
Defined.

(** ** Additions and deletions are treated alike *)

Lemma add_comm_nonneg A D : nonneg A -> nonneg D -> add A D = add D A.
Proof.
  intros [->|(m1 & e1 & -> & _)] [->|(m2 & e2 & -> & _)]; try reflexivity.
  unfold add, SFadd. cbv zeta. rewrite (Z.min_comm e2 e1). f_equal. apply Z.add_comm.
Qed.

Lemma of_Z_small_inj i j :
  0 <= i <= 5 -> 0 <= j <= 5 -> of_Z i = of_Z j -> i = j.
Proof.
  intros Hi Hj.
  destruct (small_cases i Hi) as [->|[->|[->|[->|[->| ->]]]]];
  destruct (small_cases j Hj) as [->|[->|[->|[->|[->| ->]]]]];
  intros H; try reflexivity; vm_compute in H; discriminate H.
Qed.

(** X4.  Swapping the two counts swaps the green and the red boxes and
    leaves the gray ones: the allocator prefers neither side. *)
Theorem diffAllocate_swap (additions deletions : option number) :
  nonneg_input additions -> nonneg_input deletions ->
  additionBoxes (diffAllocate deletions additions) =
    deletionBoxes (diffAllocate additions deletions) /\
  deletionBoxes (diffAllocate deletions additions) =
    additionBoxes (diffAllocate additions deletions) /\
  emptyBoxes (diffAllocate deletions additions) =
    emptyBoxes (diffAllocate additions deletions).
Proof.
  intros Ha Hd.
  destruct (diffAllocate_shape additions deletions Ha Hd) as (i & j & Hi & Hj & Hij & E).
  destruct (diffAllocate_shape deletions additions Hd Ha) as (i' & j' & Hi' & Hj' & Hij' & E').
  assert (Hswap :
    additionBoxes (diffAllocate deletions additions) =
      deletionBoxes (diffAllocate additions deletions) /\
    deletionBoxes (diffAllocate deletions additions) =
      additionBoxes (diffAllocate additions deletions)).
  { unfold diffAllocate.
    rewrite (add_comm_nonneg (or_zero deletions) (or_zero additions))
      by (apply or_zero_nonneg; assumption).
    destruct (ltb (of_Z 0) (add (or_zero additions) (or_zero deletions)));
      split; reflexivity. }
  destruct Hswap as [H1 H2]. split; [exact H1|]. split; [exact H2|].
  rewrite E, E' in H1, H2 |- *. cbn [additionBoxes deletionBoxes emptyBoxes] in *.
  apply of_Z_small_inj in H1; [|lia|lia]. apply of_Z_small_inj in H2; [|lia|lia].
  f_equal. lia.
Qed.

Lemma diffAllocate_swap_witness :
  nonneg_input (Some (of_Z 3)) /\ nonneg_input (Some (of_Z 2)) /\
  emptyBoxes (diffAllocate (Some (of_Z 2)) (Some (of_Z 3))) =
    emptyBoxes (diffAllocate (Some (of_Z 3)) (Some (of_Z 2))).
Proof.
  assert (H3 : nonneg_input (Some (of_Z 3))) by (vm_compute; reflexivity).
  assert (H2 : nonneg_input (Some (of_Z 2))) by (vm_compute; reflexivity).
  split; [exact H3|]. split; [exact H2|].
  exact (proj2 (proj2 (diffAllocate_swap _ _ H3 H2))).
Defined.

(* ===================================================================== *)
(** * Further properties: the reference renderers *)
(* ===================================================================== *)

Lemma substring_0_split n s :
  String.substring 0 n s ++ drop_chars n s = s /\
  String.length (String.substring 0 n s) = Nat.min n (String.length s).
Proof.
  revert s. induction n as [|n IH]; intros s.
  - destruct s; split; reflexivity.
  - destruct s as [|c s]; [split; reflexivity|].
    destruct (IH s) as [H1 H2]. split.
    + change (String c (String.substring 0 n s ++ drop_chars n s) = String c s).
      f_equal. exact H1.
    + simpl. f_equal. exact H2.
Qed.

(** X5.  Every commit reference shows exactly one link, and the link
    stays inside the repository of the commit, whatever the branch name
    is (absent, empty or given). *)
Theorem commit_reference_one_link
    (orgName : string) (commit : ExternalGitHubCommitReference.t) :
  exists link rest,
    anchors (IssueReferenceExternalGitHubCommit orgName (Some commit)) = [link] /\
    href_of link = Some (PStr (baseHref commit ++ rest)).
Proof.
  unfold IssueReferenceExternalGitHubCommit.
  destruct (ExternalGitHubCommitReference.branch_name commit) as [[|c branch]|].
  - exists (shaLink commit), ("/commit/" ++ ExternalGitHubCommitReference.sha commit).
    split; reflexivity.
  - exists (branchLink orgName commit (String c branch)), ("/tree/" ++ String c branch).
    split; reflexivity.
  - exists (shaLink commit), ("/commit/" ++ ExternalGitHubCommitReference.sha commit).
    split; reflexivity.
Qed.

(** X6.  The short hash shown for a commit without a branch name is the
    start of its sha: six characters, or the whole sha when that is
    shorter. *)
Theorem commit_short_hash
    (orgName : string) (commit : ExternalGitHubCommitReference.t) :
  truthy_string (ExternalGitHubCommitReference.branch_name commit) = false ->
  exists short,
    flat_map texts_of
      (anchors (IssueReferenceExternalGitHubCommit orgName (Some commit))) = [short] /\
    short ++ drop_chars 6 (ExternalGitHubCommitReference.sha commit) =
      ExternalGitHubCommitReference.sha commit /\
    String.length short =
      Nat.min 6 (String.length (ExternalGitHubCommitReference.sha commit)).
Proof.
  intros Hb.
  exists (String.substring 0 6 (ExternalGitHubCommitReference.sha commit)).
  split; [|apply substring_0_split].
  unfold IssueReferenceExternalGitHubCommit.
  destruct (ExternalGitHubCommitReference.branch_name commit) as [[|c branch]|];
    [reflexivity|discriminate Hb|reflexivity].
Qed.

Lemma commit_short_hash_witness :
  let commit :=
    {| ExternalGitHubCommitReference.organization_name := "polarsource";
       ExternalGitHubCommitReference.repository_name := "polar";
       ExternalGitHubCommitReference.sha := "0a1b";
       ExternalGitHubCommitReference.branch_name := None;
       ExternalGitHubCommitReference.author_avatar := "https://example.com/a.png" |} in
  truthy_string (ExternalGitHubCommitReference.branch_name commit) = false /\
  exists short,
    flat_map texts_of
      (anchors (IssueReferenceExternalGitHubCommit "polarsource" (Some commit))) = [short] /\
    short ++ drop_chars 6 (ExternalGitHubCommitReference.sha commit) =
      ExternalGitHubCommitReference.sha commit /\
    String.length short =
      Nat.min 6 (String.length (ExternalGitHubCommitReference.sha commit)).
Proof.
  intros commit. split; [reflexivity|].
  exact (commit_short_hash "polarsource" commit eq_refl).
Defined.

Lemma component_names_diffBoxes classNames className n :
  component_names (diffBoxes classNames className n) = [].
Proof.
  unfold diffBoxes. destruct n as [|n]; [reflexivity|].
  cbn [component_names]. generalize (seq 0 (S n)). intros l.
  induction l as [|x l IH]; [reflexivity|exact IH].
Qed.

Lemma dates_of_diffBoxes classNames className n :
  dates_of (diffBoxes classNames className n) = [].
Proof.
  unfold diffBoxes. destruct n as [|n]; [reflexivity|].
  cbn [dates_of]. generalize (seq 0 (S n)). intros l.
  induction l as [|x l IH]; [reflexivity|exact IH].
Qed.

Section RendererFacts.

Variable githubPullReqeustUrl : string -> string -> number -> string.
Variable classNames : list string -> string.
Variables PULL_REQUEST EXTERNAL_GITHUB_COMMIT EXTERNAL_GITHUB_PULL_REQUEST : string.
Variable Payload : Type.
Variable asPullRequestReference : Payload -> option PullRequestReference.t.
Variable asExternalGitHubCommitReference :
  Payload -> option ExternalGitHubCommitReference.t.
Variable asExternalGitHubPullRequestReference :
  Payload -> option ExternalGitHubPullRequestReference.t.

(** X7.  An external pull request shows one status icon, the merge icon
    exactly when its state is ['closed'], and its two links (title and
    [org/repo#number]) point at the same URL. *)
Theorem external_pull_request_links (pr : ExternalGitHubPullRequestReference.t) :
  let tree := IssueReferenceExternalGitHubPullRequest githubPullReqeustUrl (Some pr) in
  let href :=
    githubPullReqeustUrl
      (ExternalGitHubPullRequestReference.organization_name pr)
      (ExternalGitHubPullRequestReference.repository_name pr)
      (ExternalGitHubPullRequestReference.number pr) in
  map href_of (anchors tree) = [Some (PStr href); Some (PStr href)] /\
  component_names tree =
    [if String.eqb (ExternalGitHubPullRequestReference.state pr) "closed"
     then "GitMergeIcon" else "GitPullRequestIcon"].
Proof.
  unfold IssueReferenceExternalGitHubPullRequest.
  destruct (String.eqb (ExternalGitHubPullRequestReference.state pr) "closed");
    split; reflexivity.
Qed.

(** X8.  A pull request with non-negative counts renders without
    throwing and shows exactly one status icon: merged for a closed one
    with [merged_at], closed for a closed one without, open otherwise.
    The relative time is mounted only when the time stamp of that status
    is not empty, so a closed pull request without [closed_at] shows
    none. *)
Theorem pull_request_status
    (pr : PullRequestReference.t) (orgName repoName : string) :
  nonneg_input (PullRequestReference.additions pr) ->
  nonneg_input (PullRequestReference.deletions pr) ->
  exists tree,
    IssueReferencePullRequest githubPullReqeustUrl classNames (Some pr) orgName repoName
      = Ok tree /\
    component_names tree =
      (if String.eqb (PullRequestReference.state pr) "closed" then
         if truthy_string (PullRequestReference.merged_at pr)
         then "GitMergeIcon" else "GitPullRequestClosedIcon"
       else "GitPullRequestIcon")
      :: (if String.eqb (formatting_timestamp pr) EmptyString then [] else ["TimeAgo"]) /\
    dates_of tree =
      (if String.eqb (formatting_timestamp pr) EmptyString then [] else [formatting_timestamp pr]).
Proof.
  intros Ha Hd.
  destruct (DiffStat_render classNames _ _ Ha Hd) as (i & j & _ & _ & _ & _ & R).
  unfold IssueReferencePullRequest, formatting_timestamp. rewrite R.
  eexists. split; [reflexivity|].
  destruct (PullRequestReference.additions pr), (PullRequestReference.deletions pr);
    destruct (String.eqb (PullRequestReference.state pr) "closed");
    destruct (truthy_string (PullRequestReference.merged_at pr));
    cbv zeta; cbn [andb negb timestamp label iconClasses titleClasses];
    match goal with
    | |- context [String.eqb ?t EmptyString] => destruct (String.eqb t EmptyString)
    end;
    split; cbn; rewrite ?component_names_diffBoxes, ?dates_of_diffBoxes; reflexivity.
Qed.

End RendererFacts.

Lemma pull_request_status_witness :
  let pr :=
    {| PullRequestReference.title := "Fix";
       PullRequestReference.author_avatar := "https://example.com/a.png";
       PullRequestReference.number := of_Z 7;
       PullRequestReference.additions := Some (of_Z 3);
       PullRequestReference.deletions := None;
       PullRequestReference.state := "closed";
       PullRequestReference.created_at := "2023-10-01";
       PullRequestReference.merged_at := None;
       PullRequestReference.closed_at := None |} in
  nonneg_input (PullRequestReference.additions pr) /\
  exists tree,
    IssueReferencePullRequest (fun _ _ _ => EmptyString) (fun _ => EmptyString)
      (Some pr) "polarsource" "polar" = Ok tree /\
    component_names tree = ["GitPullRequestClosedIcon"] /\
    dates_of tree = [].
Proof.
  intros pr.
  assert (H : nonneg_input (PullRequestReference.additions pr))
    by (vm_compute; reflexivity).
  split; [exact H|].
  exact (pull_request_status (fun _ _ _ => EmptyString) (fun _ => EmptyString)
           pr "polarsource" "polar" H I).
Defined.

(* ===================================================================== *)
(** * Further properties: the e-mail overrides *)
(* ===================================================================== *)

Lemma obj_get_set_eq k v o : obj_get k (obj_set k v o) = Some v.
Proof.
  induction o as [|[k' v'] o IH]; simpl.
  - rewrite String.eqb_refl. reflexivity.
  - destruct (String.eqb k k') eqn:E; simpl; rewrite E; [reflexivity|exact IH].
Qed.

Lemma obj_get_set_ne k k' v o :
  k <> k' -> obj_get k' (obj_set k v o) = obj_get k' o.
Proof.
  intros Hne. induction o as [|[k0 v0] o IH]; simpl.
  - apply not_eq_sym in Hne. apply String.eqb_neq in Hne. rewrite Hne. reflexivity.
  - destruct (String.eqb k k0) eqn:E; simpl.
    + apply String.eqb_eq in E. subst k0.
      apply not_eq_sym in Hne. apply String.eqb_neq in Hne. rewrite Hne. reflexivity.
    + destruct (String.eqb k' k0); [reflexivity|exact IH].
Qed.

Lemma obj_get_absent k o : ~ In k (map fst o) -> obj_get k o = None.
Proof.
  induction o as [|[k' v'] o IH]; simpl; intros H; [reflexivity|].
  destruct (String.eqb_spec k k') as [->|Hne]; [tauto|]. apply IH. tauto.
Qed.

(** Spread: the keys of the source win, the other keys of the target
    stay. *)
Lemma obj_get_assign k target source :
  List.NoDup (map fst source) ->
  obj_get k (obj_assign target source) =
    match obj_get k source with
    | Some v => Some v
    | None => obj_get k target
    end.
Proof.
  unfold obj_assign. revert target.
  induction source as [|[k1 v1] source IH]; intros target Hnd; simpl.
  - reflexivity.
  - inversion Hnd as [|? ? Hnot Hnd']; subst.
    rewrite IH by assumption.
    destruct (String.eqb_spec k k1) as [->|Hne].
    + rewrite (obj_get_absent k1 source Hnot). apply obj_get_set_eq.
    + destruct (obj_get k source); [reflexivity|].
      apply obj_get_set_ne. congruence.
Qed.

(** X10.  In e-mail a poll is always drawn by [EmailPoll]: the [renderer]
    prop of the [Poll] element is [EmailPoll] even when the block brings
    a renderer of its own, and every other prop of the block is passed on
    unchanged. *)
Theorem poll_renderer (args : Args) :
  exists props,
    poll args =
      Ok (NElem (Comp "Poll") (args_className args) props
            (child_list (args_children args))) /\
    obj_get "renderer" props = Some (PRef "EmailPoll") /\
    forall k, k <> "renderer" -> obj_get k props = obj_get k (args_props args).
Proof.
  exists (obj_set "renderer" (PRef "EmailPoll") (args_props args)).
  split; [reflexivity|]. split.
  - apply obj_get_set_eq.
  - intros k Hk. apply obj_get_set_ne. congruence.
Qed.

(** X11.  The syntax highlighter receives the props of the [code] child
    as they are, and the language read off the class name unless the
    child has a [language] prop of its own, which then wins. *)
Theorem pre_highlighter_props
    (cn : option string) (ps : list (string * PropVal)) (t : ElemType)
    (className : option string) (props : list (string * PropVal))
    (children : list Node) :
  is_code t = true ->
  is_mermaid (language_of className) = false ->
  List.NoDup (map fst props) ->
  exists tree,
    pre {| args_className := cn; args_props := ps;
           args_children := NElem t className props children |} = Ok tree /\
    component_names tree =
      "EmailSyntaxHighlighter" :: flat_map component_names children /\
    forall k,
      obj_get k (props_of tree) =
        match obj_get k props with
        | Some v => Some v
        | None =>
            if String.eqb k "language"
            then Some (string_prop (language_of className)) else None
        end.
Proof.
  intros Ht Hm Hnd. unfold pre. cbn [args_children]. rewrite Ht, Hm.
  eexists. split; [reflexivity|]. split; [reflexivity|].
  intros k. unfold EmailSyntaxHighlighter, props_of.
  rewrite obj_get_assign by assumption. reflexivity.
Qed.

Lemma pre_highlighter_props_witness :
  exists tree,
    pre {| args_className := None; args_props := [];
           args_children :=
             NElem (Tag "code") (Some "lang-ts") [("title", PStr "example")]
               [NText "let x = 1"] |} = Ok tree /\
    obj_get "language" (props_of tree) = Some (PStr "ts") /\
    obj_get "title" (props_of tree) = Some (PStr "example").
Proof.
  destruct (pre_highlighter_props None [] (Tag "code") (Some "lang-ts")
              [("title", PStr "example")] [NText "let x = 1"])
    as (tree & E & _ & H).
  - reflexivity.
  - reflexivity.
  - repeat constructor; simpl; tauto.
  - exists tree. split; [exact E|]. split; [exact (H "language")|exact (H "title")].
Defined.

(** ** The language of a class name *)

Lemma prefix_app pat s : String.prefix pat (pat ++ s) = true.
Proof.
  induction pat as [|c pat IH].
  - destruct s; reflexivity.
  - change (String.prefix (String c pat) (String c (pat ++ s)) = true). simpl.
    destruct (Ascii.ascii_dec c c) as [_|Hne]; [exact IH|congruence].
Qed.

Lemma drop_chars_app pat s : drop_chars (String.length pat) (pat ++ s) = s.
Proof.
  induction pat as [|c pat IH]; [reflexivity|].
  change (drop_chars (S (String.length pat)) (String c (pat ++ s)) = s). exact IH.
Qed.

Lemma replace_unfold pat rep s :
  replace pat rep s =
    if String.prefix pat s then rep ++ drop_chars (String.length pat) s
    else match s with
         | EmptyString => EmptyString
         | String c s' => String c (replace pat rep s')
         end.
Proof. destruct s; reflexivity. Qed.

(** Only the first occurrence is replaced. *)
Lemma replace_prefix pat rep s : replace pat rep (pat ++ s) = rep ++ s.
Proof. rewrite replace_unfold, prefix_app, drop_chars_app. reflexivity. Qed.

Lemma index_0_none pat s :
  String.index 0 pat s = None ->
  String.prefix pat s = false /\
  match s with
  | EmptyString => True
  | String _ s' => String.index 0 pat s' = None
  end.
Proof.
  destruct s as [|c s]; simpl; intros H.
  - destruct pat; [discriminate H|]. split; [reflexivity|exact I].
  - destruct pat as [|a pat]; [discriminate H|].
    destruct (Ascii.ascii_dec a c) as [_|_].
    + destruct (String.prefix pat s); [discriminate H|].
      split; [reflexivity|].
      destruct (String.index 0 (String a pat) s); [discriminate H|reflexivity].
    + split; [reflexivity|].
      destruct (String.index 0 (String a pat) s); [discriminate H|reflexivity].
Qed.

Lemma replace_absent pat rep s :
  String.index 0 pat s = None -> replace pat rep s = s.
Proof.
  induction s as [|c s IH]; intros H; rewrite replace_unfold;
    destruct (index_0_none pat _ H) as [Hp Hs]; rewrite Hp; [reflexivity|].
  f_equal. apply IH. exact Hs.
Qed.

(** X12.  The language of a [code] block is its class name without the
    first ['lang-']: a class ['lang-' ++ l] names the language [l],
    whatever [l] is, and a class name with no ['lang-'] in it is taken as
    the language as it stands. *)
Theorem language_of_class (l : string) :
  language_of (Some ("lang-" ++ l)) = Some l /\
  (String.index 0 "lang-" l = None -> language_of (Some l) = Some l) /\
  language_of None = None.
Proof.
  split; [|split].
  - unfold language_of. simpl option_map. f_equal.
    exact (replace_prefix "lang-" EmptyString l).
  - intros H. unfold language_of. simpl option_map. f_equal.
    apply replace_absent. exact H.
  - reflexivity.
Qed.

Lemma language_of_class_witness :
  String.index 0 "lang-" "mermaid" = None /\
  language_of (Some "mermaid") = Some "mermaid".
Proof.
  split; [reflexivity|].
  exact (proj1 (proj2 (language_of_class "mermaid")) eq_refl).
Defined.

(** ** The table as a whole *)

(** X13.  The e-mail table overrides exactly six tags: their entries do
    not depend on the base table, and every other tag resolves as in the
    base table. *)
Theorem opts_overrides_tags (markdownOpts_overrides : gmap string Override) (k : string) :
  (In k email_tags ->
   is_Some (opts_overrides markdownOpts_overrides !! k) /\
   opts_overrides markdownOpts_overrides !! k = opts_overrides ∅ !! k) /\
  (~ In k email_tags ->
   opts_overrides markdownOpts_overrides !! k = markdownOpts_overrides !! k).
Proof.
  unfold opts_overrides, email_tags. split.
  - simpl. intros [<-|[<-|[<-|[<-|[<-|[<-|[]]]]]]]; simplify_map_eq; eauto.
  - simpl. intros H. rewrite !lookup_insert_ne by (intros <-; tauto). reflexivity.
Qed.

Lemma opts_overrides_tags_witness :
  ~ In "code" email_tags /\
  opts_overrides (<["code" := SubscribeNow]> ∅) !! "code" = Some SubscribeNow.
Proof.
  assert (H : ~ In "code" email_tags).
  { unfold email_tags. simpl. intros [H|[H|[H|[H|[H|[H|[]]]]]]]; discriminate H. }
  split; [exact H|].
  rewrite (proj2 (opts_overrides_tags (<["code" := SubscribeNow]> ∅) "code") H).
  apply lookup_insert_eq.
Defined.

(* ===================================================================== *)
(** * Further properties: which queries a mutation refreshes *)
(* ===================================================================== *)

Lemma invalidated_true filters q :
  invalidated filters q = true <->
  exists f, In f filters /\ f `prefix_of` queryKey q.
Proof.
  unfold invalidated. rewrite existsb_exists.
  split; intros (f & Hin & Hf); exists f; (split; [exact Hin|]).
  - apply bool_decide_eq_true in Hf. exact Hf.
  - apply bool_decide_eq_true. exact Hf.
Qed.

Lemma invalidated_false filters q :
  (forall f, In f filters -> ~ f `prefix_of` queryKey q) ->
  invalidated filters q = false.
Proof.
  intros H. destruct (invalidated filters q) eqn:E; [|reflexivity].
  apply invalidated_true in E. destruct E as (f & Hin & Hf).
  exfalso. exact (H f Hin Hf).
Qed.

(** Compares two keys entry by entry. *)
Ltac prefix_head H :=
  repeat match type of H with
         | (_ :: _) `prefix_of` (_ :: _) =>
             let E := fresh "E" in
             pose proof (prefix_cons_inv_1 _ _ _ _ H) as E;
             apply prefix_cons_inv_2 in H
         end.

Lemma key_string_eq orgName name : key_string orgName = KStr name <-> orgName = Some name.
Proof.
  destruct orgName as [s|]; simpl; split; intros H;
    try discriminate H; [injection H as ->; reflexivity|injection H as ->; reflexivity].
Qed.

(** X15.  Creating or updating an article of organization [name]
    refreshes the article listings of that organization, with or without
    unpublished articles, and of no other organization; updating
    refreshes the article with the id of the result and no other one. *)
Theorem article_mutations_refresh
    (name id : string) (orgName : option string) (showUnpublished : option bool)
    (id' : string) :
  (invalidated (useCreateArticle_invalidates name)
     (useOrganizationArticles orgName showUnpublished) = true <-> orgName = Some name) /\
  (invalidated (useUpdateArticle_invalidates name id)
     (useOrganizationArticles orgName showUnpublished) = true <-> orgName = Some name) /\
  (invalidated (useUpdateArticle_invalidates name id) (useArticle id') = true
     <-> id' = id) /\
  invalidated (useCreateArticle_invalidates name) (useArticle id') = false.
Proof.
  assert (Hpre : forall k : KeyPart,
    [KStr "article"; KStr "organization"; KStr name]
      `prefix_of` [KStr "article"; KStr "organization"; KStr name; k]).
  { intros k. exists [k]. reflexivity. }
  split; [|split; [|split]].
  - rewrite invalidated_true. split.
    + intros (f & Hin & Hf). simpl in Hin, Hf.
      destruct Hin as [<-|[<-|[]]]; prefix_head Hf; try discriminate.
      apply key_string_eq. congruence.
    + intros ->. eexists. split; [left; reflexivity|apply Hpre].
  - rewrite invalidated_true. split.
    + intros (f & Hin & Hf). simpl in Hin, Hf.
      destruct Hin as [<-|[<-|[<-|[<-|[]]]]]; prefix_head Hf; try discriminate.
      apply key_string_eq. congruence.
    + intros ->. eexists. split; [left; reflexivity|apply Hpre].
  - rewrite invalidated_true. split.
    + intros (f & Hin & Hf). simpl in Hin, Hf.
      destruct Hin as [<-|[<-|[<-|[<-|[]]]]]; prefix_head Hf; try discriminate.
      congruence.
    + intros ->. eexists. split; [right; left; reflexivity|]. exists []. reflexivity.
  - apply invalidated_false. intros f Hin Hf. simpl in Hin, Hf.
    destruct Hin as [<-|[<-|[]]]; prefix_head Hf; discriminate.
Qed.

(** X16.  Deleting an article refreshes every article query of the file;
    the receivers of an organization are refreshed by a deletion only,
    and look-ups by an update but not by a creation. *)
Theorem article_delete_refreshes_all
    (name id : string) (orgName slug : option string) (showUnpublished : option bool)
    (id' organizationName : string) (paidSubscribersOnly : bool) :
  Forall (fun q => invalidated useDeleteArticle_invalidates q = true)
    [useOrganizationArticles orgName showUnpublished; useListArticles;
     useArticle id'; useArticleLookup orgName slug;
     useArticleReceivers organizationName paidSubscribersOnly] /\
  invalidated (useCreateArticle_invalidates name)
    (useArticleReceivers organizationName paidSubscribersOnly) = false /\
  invalidated (useUpdateArticle_invalidates name id)
    (useArticleReceivers organizationName paidSubscribersOnly) = false /\
  invalidated (useUpdateArticle_invalidates name id)
    (useArticleLookup orgName slug) = true /\
  invalidated (useCreateArticle_invalidates name)
    (useArticleLookup orgName slug) = false.
Proof.
  split; [repeat constructor|].
  split; [|split; [|split]].
  - apply invalidated_false. intros f Hin Hf. simpl in Hin, Hf.
    destruct Hin as [<-|[<-|[]]]; prefix_head Hf; discriminate.
  - apply invalidated_false. intros f Hin Hf. simpl in Hin, Hf.
    destruct Hin as [<-|[<-|[<-|[<-|[]]]]]; prefix_head Hf; discriminate.
  - apply invalidated_true. eexists. split; [right; right; left; reflexivity|].
    eexists. reflexivity.
  - apply invalidated_false. intros f Hin Hf. simpl in Hin, Hf.
    destruct Hin as [<-|[<-|[]]]; prefix_head Hf; discriminate.
Qed.

(* ===================================================================== *)
(** * Further properties: a side without changes *)
(* ===================================================================== *)

(** X17.  A side whose count is zero or absent never gets a box, whatever
    the other count is (negative, infinite or [NaN] included). *)
Theorem diffAllocate_no_change_no_box (z other : option number) :
  zero_input z ->
  additionBoxes (diffAllocate z other) = of_Z 0 /\
  deletionBoxes (diffAllocate other z) = of_Z 0.
Proof.
  intros Hz. unfold diffAllocate. rewrite (or_zero_zero_input z Hz). split.
  - destruct (add (S754_zero false) (or_zero other)) as [s|s| |s m e];
      try destruct s; reflexivity.
  - destruct (add (or_zero other) (S754_zero false)) as [s|s| |s m e];
      try destruct s; reflexivity.
Qed.

Lemma diffAllocate_no_change_no_box_witness :
  zero_input None /\
  additionBoxes (diffAllocate None (Some (of_Z (-3)))) = of_Z 0.
Proof.
  split; [exact I|].
  exact (proj1 (diffAllocate_no_change_no_box None (Some (of_Z (-3))) I)).
Defined.
